(** * L1TransactionReceipt: receipts of the base chain and the messages they create

    A shallow embedding of [packages/arb-ts/src/lib/message/L1Transaction.ts].

    - JavaScript exceptions and rejected promises are values of [Error]; a
      synchronous computation that may throw lives in [Result], an [async]
      one in [IO], which also records the calls made to the connectivity
      layer, in order.
    - [BigNumber]s are integers of [Z]; a JavaScript [number] that is an
      integer is one of [Z] too, and [Doubles] has the other numbers for
      the method that is given any number as an index.
    - [undefined] is [None]: a missing array element, an absent optional
      argument, an optional field that is not set.
    - The methods are functions on values; [Objects] has the heap, with
      receipts and arrays of logs reached by reference, for the
      constructor and for what the methods write.
    - What the file imports from files that are not part of it (the ABI
      bindings, [SignerProviderUtils], [L1ToL2Message]) is the interface
      [Collaborators]. *)

From Stdlib Require Import ZArith String Ascii List Lia.
From Stdlib.Strings Require Import Byte.
From Stdlib Require Import DecimalString DecimalZ DecimalPos.
From stdpp Require Import base option list strings gmap.

Local Open Scope string_scope.
Local Open Scope list_scope.
Local Open Scope Z_scope.

(** ** Errors and the two monads *)

Inductive Error : Type :=
| ArbTsError (message : string)          (* [throw new ArbTsError(message)] *)
| BigNumberError (value : option string) (* [BigNumber.from] refused [value] *)
| AbiError (reason : string)             (* thrown while decoding a log *)
| ProviderError (reason : string)        (* no provider, or a rejected call *)
| ArgumentError (reason : string)        (* a value refused by a library *)
| TypeError.                             (* a property read off [null] *)

Definition Result (A : Type) : Type := (Error + A)%type.

Definition ok {A} (a : A) : Result A := inr a.
Definition throw {A} (e : Error) : Result A := inl e.

Definition Result_bind {A B} (f : A → Result B) (m : Result A) : Result B :=
  match m with
  | inl e => inl e
  | inr a => f a
  end.

#[global] Instance Result_mret : MRet Result := @ok.
#[global] Instance Result_mbind : MBind Result := @Result_bind.

(** A call to the connectivity layer, as it appears in the trace of an
    [async] method. *)
Inductive Call : Type :=
| Call_getNetwork
| Call_getTransaction (transactionHash : string)
| Call_wait (confirmations : option Z).

Definition IO (A : Type) : Type := (list Call * Result A)%type.

Definition IO_ret {A} (a : A) : IO A := ([], ok a).

Definition IO_bind {A B} (f : A → IO B) (m : IO A) : IO B :=
  match m with
  | (t, inl e) => (t, inl e)
  | (t, inr a) => let '(t', r) := f a in (t ++ t', r)
  end.

#[global] Instance IO_mret : MRet IO := @IO_ret.
#[global] Instance IO_mbind : MBind IO := @IO_bind.

(** A synchronous step inside an [async] function: no call is recorded. *)
Definition sync {A} (r : Result A) : IO A := ([], r).

(** [await p] for a promise of the connectivity layer that settles as [r]. *)
Definition await {A} (c : Call) (r : Result A) : IO A := ([c], r).

Definition trace {A} (m : IO A) : list Call := fst m.
Definition outcome {A} (m : IO A) : Result A := snd m.

(** ** Numbers and strings of the host language *)

(** The decimal numeral of an integer. *)
Definition decimal (n : Z) : string :=
  NilZero.string_of_int (Z.to_int n).

(** A run of digits without its trailing zeros. *)
Fixpoint strip_zeros (digits : string) : string :=
  match digits with
  | EmptyString => EmptyString
  | String c digits' =>
      match strip_zeros digits' with
      | EmptyString => if Ascii.eqb c "0" then EmptyString else String c ""
      | kept => String c kept
      end
  end.

(** The exponent form of the positive integer whose numeral is [digits]:
    the first digit; the other digits up to the last one that is not 0,
    after a point, when there is one; [e+] and the number of the other
    digits. *)
Definition exponent_form (digits : string) : string :=
  match digits with
  | EmptyString => EmptyString
  | String first others =>
      String first
        (match strip_zeros others with
         | EmptyString => EmptyString
         | fraction => "." +:+ fraction
         end
         +:+ "e+" +:+ decimal (Z.of_nat (String.length others)))
  end.

(** [Number.prototype.toString], also the [${n}] of a template, at an
    integer: the plain numeral below 10^21 and the exponent form from
    there on, [1e+21] for 10^21. The digits are those of the integer, which
    is what the engine prints for every safe integer and for every integer
    of at most 15 significant digits. Beyond both, the engine prints the
    fewest digits that give the number back, which need not be those of
    the integer: where a printed number is read back, the statements ask
    for a safe integer, and where it is refused, they do not say how it
    is spelled. *)
Definition Number_toString (n : Z) : string :=
  if Z.abs n <? 10 ^ 21 then decimal n
  else if n <? 0 then "-" +:+ exponent_form (decimal (- n))
  else exponent_form (decimal n).

(** [Number.isSafeInteger]: the integers that a number holds exactly, its
    neighbours too. *)
Definition isSafeInteger (n : Z) : Prop := Z.abs n ≤ 2 ^ 53 - 1.

#[global] Instance isSafeInteger_dec (n : Z) : Decision (isSafeInteger n) :=
  Z_le_dec (Z.abs n) (2 ^ 53 - 1).

Definition hex_digit (c : ascii) : option Z :=
  let n := Z.of_nat (nat_of_ascii c) in
  if (48 <=? n) && (n <=? 57) then Some (n - 48)
  else if (97 <=? n) && (n <=? 102) then Some (n - 87)
  else if (65 <=? n) && (n <=? 70) then Some (n - 55)
  else None.

Fixpoint hex_value (acc : Z) (s : string) : option Z :=
  match s with
  | EmptyString => Some acc
  | String c s' =>
      match hex_digit c with
      | Some d => hex_value (16 * acc + d) s'
      | None => None
      end
  end.

(** The strings [0x] followed by at least one hexadecimal digit. *)
Definition parse_hex (s : string) : option Z :=
  match s with
  | String "0" (String "x" (String c s')) => hex_value 0 (String c s')
  | _ => None
  end.

Definition parse_hex_signed (s : string) : option Z :=
  match s with
  | String "-" s' => Z.opp <$> parse_hex s'
  | _ => parse_hex s
  end.

(** [BigNumber.from(value)] of ethers, for a value that is a string or
    [undefined]: a hexadecimal string with the [0x] prefix, else a decimal
    string, each with an optional minus sign; anything else throws. The
    prefix is read in lower case, as the connectivity layer writes it in
    every topic and every hash. For a string that begins with [0X] or
    [-0X] ethers does not throw, and the number it gives is left to the
    big-number library underneath: what is said below of a string that is
    refused is said of the strings that do not begin so. *)
Definition BigNumber_from (value : option string) : Result Z :=
  match value with
  | None => throw (BigNumberError None)
  | Some s =>
      match parse_hex_signed s with
      | Some z => ok z
      | None =>
          match NilZero.int_of_string s with
          | Some d => ok (Z.of_int d)
          | None => throw (BigNumberError (Some s))
          end
      end
  end.

(** [Array.prototype.map] with a callback that may throw: elements are
    visited from left to right and the first exception ends the call. *)
Fixpoint Array_map {A B} (f : A → Result B) (l : list A) : Result (list B) :=
  match l with
  | [] => ok []
  | x :: l' =>
      match f x with
      | inl e => inl e
      | inr y =>
          match Array_map f l' with
          | inl e => inl e
          | inr ys => ok (y :: ys)
          end
      end
  end.

(** A template literal's [${n}] for an optional number [n]. *)
Definition interpolate (n : option Z) : string :=
  match n with
  | Some n => Number_toString n
  | None => "undefined"
  end.

(** The characters of a number written by [Number_toString]: the ten
    digits and the minus sign. *)
Definition numeral_char (c : ascii) : bool :=
  let n := Z.of_nat (nat_of_ascii c) in
  ((48 <=? n) && (n <=? 57)) || (n =? 45).

Fixpoint string_forall (p : ascii → bool) (s : string) : bool :=
  match s with
  | EmptyString => true
  | String c s' => p c && string_forall p s'
  end.

(** The ten digits. *)
Definition digit_char (c : ascii) : bool :=
  let n := Z.of_nat (nat_of_ascii c) in
  (48 <=? n) && (n <=? 57).

(** The characters of a number in either form: those of a numeral, the
    point, [e] and the plus sign. *)
Definition printed_char (c : ascii) : bool :=
  let n := Z.of_nat (nat_of_ascii c) in
  numeral_char c || (n =? 46) || (n =? 101) || (n =? 43).

(** A 32-byte value as the connectivity layer writes it, a topic for
    one: [0x] and 64 hexadecimal digits. *)
Definition is_hex_char (c : ascii) : bool :=
  match hex_digit c with
  | Some _ => true
  | None => false
  end.

Definition is_bytes32 (s : string) : bool :=
  match s with
  | String "0" (String "x" digits) =>
      (String.length digits =? 64)%nat && string_forall is_hex_char digits
  | _ => false
  end.

(** [array[i]] for a number [i]: [undefined] out of range, also below 0. *)
Definition Array_get {A} (l : list A) (i : Z) : option A :=
  if i <? 0 then None else l !! Z.to_nat i.

(** ** Data of the connectivity layer *)

(** [Log] of [@ethersproject/abstract-provider]. *)
Record Log : Type := {
  blockNumber : Z;
  blockHash : string;
  transactionIndex : Z;
  removed : bool;
  address : string;
  data : string;
  topics : list string;
  transactionHash : string;
  logIndex : Z
}.

(** The number that a log carries in its second topic, when there is one
    that [BigNumber.from] reads. *)
Definition decodes (log : Log) (n : Z) : Prop :=
  BigNumber_from (topics log !! 1%nat) = ok n.

(** [TransactionReceipt] of [@ethersproject/providers]; [root] and [status]
    are its optional fields. *)
Module TransactionReceipt.
Record t : Type := {
  to : string;
  from : string;
  contractAddress : string;
  transactionIndex : Z;
  root : option string;
  gasUsed : Z;
  logsBloom : string;
  blockHash : string;
  transactionHash : string;
  logs : list Log;
  blockNumber : Z;
  confirmations : Z;
  cumulativeGasUsed : Z;
  effectiveGasPrice : Z;
  byzantium : bool;
  type : Z;
  status : option Z
}.
End TransactionReceipt.

Record Network : Type := {
  name : string;
  chainId : Z
}.

(** The part of [TransactionResponse] that the methods read. *)
Record TransactionResponse : Type := {
  hash : string;
  tx_data : string (* the field [data]: the call data, hex encoded *)
}.

(** A [Provider], as the answers it gives: each call settles as a value or
    is rejected. [getTransaction] settles as [null], here [None], for a hash
    that the chain does not know. *)
Record Provider : Type := {
  getNetwork : Result Network;
  getTransaction : string → Result (option TransactionResponse)
}.

Definition Provider_getNetwork (p : Provider) : IO Network :=
  await Call_getNetwork (getNetwork p).

Definition Provider_getTransaction (p : Provider) (transactionHash : string)
  : IO (option TransactionResponse) :=
  await (Call_getTransaction transactionHash) (getTransaction p transactionHash).

(** ** What the file imports from the rest of the package

    The ABI bindings of [../abi], [SignerProviderUtils] of
    [../dataEntities/signerOrProvider] and [L1ToL2Message] of
    [./L1ToL2Message]. *)
Class Collaborators : Type := {
  (* [Inbox__factory.createInterface()]: the topic of each event *)
  topic_InboxMessageDelivered : string;
  topic_InboxMessageDeliveredFromOrigin : string;
  (* [L1ERC20Gateway__factory.createInterface()] *)
  topic_DepositInitiated : string;
  DepositInitiatedArgs : Type;
  parseLog_args : Log → Result DepositInitiatedArgs; (* [iface.parseLog(log).args] *)
  (* [SignerProviderUtils] *)
  SignerOrProvider : Type;
  getProviderOrThrow : SignerOrProvider → Result Provider;
  (* [L1ToL2Message]; the identifier is not computed for every pair of
     numbers, the call may throw *)
  L1ToL2MessageReaderOrWriter : Type;
  calculateRetryableCreationId : Z → Z → Result string;
  fromRetryableCreationId :
    SignerOrProvider → string → Z → L1ToL2MessageReaderOrWriter
}.

(** ** The class [L1TransactionReceipt] *)

Module L1TransactionReceipt.

Record t : Type := {
  to : string;
  from : string;
  contractAddress : string;
  transactionIndex : Z;
  root : option string;
  gasUsed : Z;
  logsBloom : string;
  blockHash : string;
  transactionHash : string;
  logs : list Log;
  blockNumber : Z;
  confirmations : Z;
  cumulativeGasUsed : Z;
  effectiveGasPrice : Z;
  byzantium : bool;
  type : Z;
  status : option Z
}.

(** [constructor(tx: TransactionReceipt)] *)
Definition new (tx : TransactionReceipt.t) : t := {|
  to := TransactionReceipt.to tx;
  from := TransactionReceipt.from tx;
  contractAddress := TransactionReceipt.contractAddress tx;
  transactionIndex := TransactionReceipt.transactionIndex tx;
  root := TransactionReceipt.root tx;
  gasUsed := TransactionReceipt.gasUsed tx;
  logsBloom := TransactionReceipt.logsBloom tx;
  blockHash := TransactionReceipt.blockHash tx;
  transactionHash := TransactionReceipt.transactionHash tx;
  logs := TransactionReceipt.logs tx;
  blockNumber := TransactionReceipt.blockNumber tx;
  confirmations := TransactionReceipt.confirmations tx;
  cumulativeGasUsed := TransactionReceipt.cumulativeGasUsed tx;
  effectiveGasPrice := TransactionReceipt.effectiveGasPrice tx;
  byzantium := TransactionReceipt.byzantium tx;
  type := TransactionReceipt.type tx;
  status := TransactionReceipt.status tx
|}.

(** The class [implements TransactionReceipt]: an instance read through
    that interface. *)
Definition asTransactionReceipt (r : t) : TransactionReceipt.t := {|
  TransactionReceipt.to := to r;
  TransactionReceipt.from := from r;
  TransactionReceipt.contractAddress := contractAddress r;
  TransactionReceipt.transactionIndex := transactionIndex r;
  TransactionReceipt.root := root r;
  TransactionReceipt.gasUsed := gasUsed r;
  TransactionReceipt.logsBloom := logsBloom r;
  TransactionReceipt.blockHash := blockHash r;
  TransactionReceipt.transactionHash := transactionHash r;
  TransactionReceipt.logs := logs r;
  TransactionReceipt.blockNumber := blockNumber r;
  TransactionReceipt.confirmations := confirmations r;
  TransactionReceipt.cumulativeGasUsed := cumulativeGasUsed r;
  TransactionReceipt.effectiveGasPrice := effectiveGasPrice r;
  TransactionReceipt.byzantium := byzantium r;
  TransactionReceipt.type := type r;
  TransactionReceipt.status := status r
|}.

(** [log.topics[0] === topic]; an absent [topics[0]] is [undefined], which
    is equal to no string. *)
Definition topic0_is (topic : string) (log : Log) : bool :=
  match topics log !! 0%nat with
  | Some t0 => String.eqb t0 topic
  | None => false
  end.

Section methods.
Context `{Collaborators}.

(** The predicate of the [filter] in [getMessageNumbers]. *)
Definition isMessageDelivered (log : Log) : bool :=
  topic0_is topic_InboxMessageDelivered log
  || topic0_is topic_InboxMessageDeliveredFromOrigin log.

Definition getMessageNumbers (this : t) : Result (list Z) :=
  let logs := List.filter isMessageDelivered (logs this) in
  Array_map (λ log, BigNumber_from (topics log !! 1%nat)) logs.

(** The callback of the [map] in [getL1ToL2Messages]. *)
Definition messageOfNumber (l2SignerOrProvider : SignerOrProvider)
    (chainID : string) (mn : Z) : Result L1ToL2MessageReaderOrWriter :=
  chainID_bn ← BigNumber_from (Some chainID);
  ticketCreationHash ← calculateRetryableCreationId chainID_bn mn;
  mret (fromRetryableCreationId l2SignerOrProvider ticketCreationHash mn).

Definition getL1ToL2Messages (this : t) (l2SignerOrProvider : SignerOrProvider)
  : IO (list L1ToL2MessageReaderOrWriter) :=
  provider ← sync (getProviderOrThrow l2SignerOrProvider);
  network ← Provider_getNetwork provider;
  let chainID := Number_toString (chainId network) in
  messageNumbers ← sync (getMessageNumbers this);
  if (length messageNumbers =? 0)%nat then mret []
  else
    sync (Array_map (messageOfNumber l2SignerOrProvider chainID)
            messageNumbers).

Definition getL1ToL2Message (this : t) (l2SignerOrProvider : SignerOrProvider)
    (messageIndex : option Z)
  : IO (option L1ToL2MessageReaderOrWriter) :=
  allL1ToL2Messages ← getL1ToL2Messages this l2SignerOrProvider;
  let messageCount := Z.of_nat (length allL1ToL2Messages) in
  if messageCount =? 0 then
    sync (throw (ArbTsError
      ("No l1 to L2 message found for " +:+ transactionHash this)))
  else if match messageIndex with
          | Some i => i >=? messageCount
          | None => false
          end then
    sync (throw (ArbTsError
      ("Provided message number out of range for "
       +:+ transactionHash this
       +:+ "; index was " +:+ interpolate messageIndex
       +:+ ", but only " +:+ Number_toString messageCount
       +:+ " messages")))
  else if match messageIndex with
          | Some _ => false
          | None => messageCount >? 1
          end then
    sync (throw (ArbTsError
      (Number_toString messageCount +:+ " L2 messages for "
       +:+ transactionHash this
       +:+ "; must provide messageNumberIndex (or use (signersAndProviders, l1Txn))")))
  else
    (* [messageIndex || 0]: [undefined] and [0] are falsy *)
    let index := match messageIndex with
                 | Some i => if i =? 0 then 0 else i
                 | None => 0
                 end in
    mret (Array_get allL1ToL2Messages index).

Definition getDepositEvents (this : t) : Result (list DepositInitiatedArgs) :=
  let eventTopic := topic_DepositInitiated in
  let logs := List.filter (topic0_is eventTopic) (logs this) in
  Array_map parseLog_args logs.

Definition looksLikeEthDeposit (this : t) (l1SignerOrProvider : SignerOrProvider)
  : IO bool :=
  l1Provider ← sync (getProviderOrThrow l1SignerOrProvider);
  txRes ← Provider_getTransaction l1Provider (transactionHash this);
  let depositEth_FUNCTION_SIG := "0x0f4d14e9" in
  match txRes with
  | None => sync (throw TypeError) (* [txRes.data] with [txRes] being [null] *)
  | Some txRes => mret (String.prefix depositEth_FUNCTION_SIG (tx_data txRes))
  end.

End methods.

(** *** [monkeyPatchWait]

    The method assigns to a field of the object it is given and returns
    that same object, so contract transactions live in a store and are
    passed by reference. What [wait] resolves to is an object that is, or
    is not, an instance of the class. *)

Inductive Receipt : Type :=
| Plain (r : TransactionReceipt.t)
| OfClass (r : t).

(** The fields of a receipt object, whatever its class. *)
Definition fields (r : Receipt) : TransactionReceipt.t :=
  match r with
  | Plain r => r
  | OfClass r => asTransactionReceipt r
  end.

(** A [ContractTransaction]: its hash and its [wait] function. *)
Record ContractTransaction : Type := {
  ct_hash : string;
  wait : option Z → IO Receipt
}.

Definition ref : Type := positive.

Definition monkeyPatchWait (contractTransaction : ref)
    (heap : gmap ref ContractTransaction)
  : gmap ref ContractTransaction * ref :=
  match heap !! contractTransaction with
  | Some object =>
      let wait := wait object in
      let patched := {|
        ct_hash := ct_hash object;
        wait := λ confirmations,
          result ← wait confirmations;
          mret (OfClass (new (fields result)))
      |} in
      (<[contractTransaction := patched]> heap, contractTransaction)
  | None => (heap, contractTransaction)
  end.

End L1TransactionReceipt.

(** ** Receipts as objects

    In the running program a receipt is an object, [logs] is an array, and
    both are reached by reference. A heap holds the objects and the arrays
    of logs; an object has its [logs] as the reference of an array and its
    other fields as values. *)

Module Objects.

Record fields : Type := {
  to : string;
  from : string;
  contractAddress : string;
  transactionIndex : Z;
  root : option string;
  gasUsed : Z;
  logsBloom : string;
  blockHash : string;
  transactionHash : string;
  logs : L1TransactionReceipt.ref;
  blockNumber : Z;
  confirmations : Z;
  cumulativeGasUsed : Z;
  effectiveGasPrice : Z;
  byzantium : bool;
  type : Z;
  status : option Z
}.

Inductive cell : Type :=
| Object (f : fields)
| Array (elements : list Log).

(** The receipt that the object at [r] stands for in the heap [h]: its
    fields, with the elements of its array for [logs]. *)
Definition view (h : gmap L1TransactionReceipt.ref cell)
    (r : L1TransactionReceipt.ref) : option TransactionReceipt.t :=
  match h !! r with
  | Some (Object f) =>
      match h !! logs f with
      | Some (Array elements) =>
          Some {|
            TransactionReceipt.to := to f;
            TransactionReceipt.from := from f;
            TransactionReceipt.contractAddress := contractAddress f;
            TransactionReceipt.transactionIndex := transactionIndex f;
            TransactionReceipt.root := root f;
            TransactionReceipt.gasUsed := gasUsed f;
            TransactionReceipt.logsBloom := logsBloom f;
            TransactionReceipt.blockHash := blockHash f;
            TransactionReceipt.transactionHash := transactionHash f;
            TransactionReceipt.logs := elements;
            TransactionReceipt.blockNumber := blockNumber f;
            TransactionReceipt.confirmations := confirmations f;
            TransactionReceipt.cumulativeGasUsed := cumulativeGasUsed f;
            TransactionReceipt.effectiveGasPrice := effectiveGasPrice f;
            TransactionReceipt.byzantium := byzantium f;
            TransactionReceipt.type := type f;
            TransactionReceipt.status := status f
          |}
      | _ => None
      end
  | _ => None
  end.

(** [new L1TransactionReceipt(tx)]: a new object, each of whose fields is
    assigned the field of [tx]; [this.logs = tx.logs] copies the reference
    of the array, not the array. *)
Definition construct (h : gmap L1TransactionReceipt.ref cell)
    (tx : L1TransactionReceipt.ref)
  : option (gmap L1TransactionReceipt.ref cell * L1TransactionReceipt.ref) :=
  match h !! tx with
  | Some (Object f) =>
      let this := fresh (dom h) in
      Some (<[this := Object {|
                to := to f;
                from := from f;
                contractAddress := contractAddress f;
                transactionIndex := transactionIndex f;
                root := root f;
                gasUsed := gasUsed f;
                logsBloom := logsBloom f;
                blockHash := blockHash f;
                transactionHash := transactionHash f;
                logs := logs f;
                blockNumber := blockNumber f;
                confirmations := confirmations f;
                cumulativeGasUsed := cumulativeGasUsed f;
                effectiveGasPrice := effectiveGasPrice f;
                byzantium := byzantium f;
                type := type f;
                status := status f
              |}]> h, this)
  | _ => None
  end.

(** [array.filter(p)]: the array is read and a new array is returned. *)
Definition Array_filter (p : Log → bool)
    (h : gmap L1TransactionReceipt.ref cell) (array : L1TransactionReceipt.ref)
  : option (gmap L1TransactionReceipt.ref cell * L1TransactionReceipt.ref) :=
  match h !! array with
  | Some (Array elements) =>
      let filtered := fresh (dom h) in
      Some (<[filtered := Array (List.filter p elements)]> h, filtered)
  | _ => None
  end.

(** [array.push(log)], which the class never calls: the array is changed
    in place. *)
Definition Array_push (h : gmap L1TransactionReceipt.ref cell)
    (array : L1TransactionReceipt.ref) (log : Log)
  : gmap L1TransactionReceipt.ref cell :=
  match h !! array with
  | Some (Array elements) => <[array := Array (elements ++ [log])]> h
  | _ => h
  end.

Section methods.
Context `{Collaborators}.

(** [getMessageNumbers] and [getDepositEvents] on the heap: [this.logs] is
    read, [filter] returns a new array of logs, and [map] reads that one;
    what [map] returns is no array of logs and is given as a value. *)
Definition getMessageNumbers (h : gmap L1TransactionReceipt.ref cell)
    (this : L1TransactionReceipt.ref)
  : option (gmap L1TransactionReceipt.ref cell * Result (list Z)) :=
  match h !! this with
  | Some (Object f) =>
      match Array_filter L1TransactionReceipt.isMessageDelivered h (logs f) with
      | Some (h', filtered) =>
          match h' !! filtered with
          | Some (Array elements) =>
              Some (h', Array_map (λ log, BigNumber_from (topics log !! 1%nat))
                          elements)
          | _ => None
          end
      | None => None
      end
  | _ => None
  end.

Definition getDepositEvents (h : gmap L1TransactionReceipt.ref cell)
    (this : L1TransactionReceipt.ref)
  : option (gmap L1TransactionReceipt.ref cell
            * Result (list DepositInitiatedArgs)) :=
  match h !! this with
  | Some (Object f) =>
      match Array_filter
              (L1TransactionReceipt.topic0_is topic_DepositInitiated)
              h (logs f) with
      | Some (h', filtered) =>
          match h' !! filtered with
          | Some (Array elements) => Some (h', Array_map parseLog_args elements)
          | _ => None
          end
      | None => None
      end
  | _ => None
  end.

(** The [async] methods on the heap. Each reads [this] and calls the
    connectivity layer; what it leaves is the heap, what it gives is the
    computation with its calls. *)
Definition getL1ToL2Messages (h : gmap L1TransactionReceipt.ref cell)
    (this : L1TransactionReceipt.ref) (l2SignerOrProvider : SignerOrProvider)
  : option (gmap L1TransactionReceipt.ref cell
            * IO (list L1ToL2MessageReaderOrWriter)) :=
  match getProviderOrThrow l2SignerOrProvider with
  | inl e => Some (h, sync (throw e))
  | inr provider =>
      match getNetwork provider with
      | inl e => Some (h, await Call_getNetwork (throw e))
      | inr network =>
          let chainID := Number_toString (chainId network) in
          match getMessageNumbers h this with
          | Some (h', messageNumbers) =>
              Some (h',
                    _ ← await Call_getNetwork (ok network);
                    messageNumbers ← sync messageNumbers;
                    if (length messageNumbers =? 0)%nat then mret []
                    else
                      sync (Array_map
                              (L1TransactionReceipt.messageOfNumber
                                 l2SignerOrProvider chainID)
                              messageNumbers))
          | None => None
          end
      end
  end.

Definition getL1ToL2Message (h : gmap L1TransactionReceipt.ref cell)
    (this : L1TransactionReceipt.ref) (l2SignerOrProvider : SignerOrProvider)
    (messageIndex : option Z)
  : option (gmap L1TransactionReceipt.ref cell
            * IO (option L1ToL2MessageReaderOrWriter)) :=
  match getL1ToL2Messages h this l2SignerOrProvider with
  | Some (h', messages) =>
      match h' !! this with
      | Some (Object f) =>
          Some (h',
                allL1ToL2Messages ← messages;
                let messageCount := Z.of_nat (length allL1ToL2Messages) in
                if messageCount =? 0 then
                  sync (throw (ArbTsError
                    ("No l1 to L2 message found for " +:+ transactionHash f)))
                else if match messageIndex with
                        | Some i => i >=? messageCount
                        | None => false
                        end then
                  sync (throw (ArbTsError
                    ("Provided message number out of range for "
                     +:+ transactionHash f
                     +:+ "; index was " +:+ interpolate messageIndex
                     +:+ ", but only " +:+ Number_toString messageCount
                     +:+ " messages")))
                else if match messageIndex with
                        | Some _ => false
                        | None => messageCount >? 1
                        end then
                  sync (throw (ArbTsError
                    (Number_toString messageCount +:+ " L2 messages for "
                     +:+ transactionHash f
                     +:+ "; must provide messageNumberIndex (or use (signersAndProviders, l1Txn))")))
                else
                  let index := match messageIndex with
                               | Some i => if i =? 0 then 0 else i
                               | None => 0
                               end in
                  mret (Array_get allL1ToL2Messages index))
      | _ => None
      end
  | None => None
  end.

Definition looksLikeEthDeposit (h : gmap L1TransactionReceipt.ref cell)
    (this : L1TransactionReceipt.ref) (l1SignerOrProvider : SignerOrProvider)
  : option (gmap L1TransactionReceipt.ref cell * IO bool) :=
  match h !! this with
  | Some (Object f) =>
      Some (h,
            l1Provider ← sync (getProviderOrThrow l1SignerOrProvider);
            txRes ← Provider_getTransaction l1Provider (transactionHash f);
            let depositEth_FUNCTION_SIG := "0x0f4d14e9" in
            match txRes with
            | None => sync (throw TypeError)
            | Some txRes =>
                mret (String.prefix depositEth_FUNCTION_SIG (tx_data txRes))
            end)
  | _ => None
  end.

End methods.
End Objects.

(** ** Indexes that are no integers

    [getL1ToL2Message] takes its index as a [number], and a caller may pass
    any number: a fraction, an infinity, [NaN]. The method compares the
    index with the count, prints it, tests it for being falsy and uses it
    as a key of the array; a number is given here with what these four
    need. *)

Module Doubles.

Inductive Number : Type :=
| Integer (n : Z)
| Fraction (floor : Z) (printed : string)
    (* a finite number between [floor] and [floor + 1]; what [toString]
       gives for it *)
| Infinity (negative : bool)
| NaN.

(** [x >= count] for an integer [count]; a comparison with [NaN] is
    false. *)
Definition ge (x : Number) (count : Z) : bool :=
  match x with
  | Integer n => n >=? count
  | Fraction floor _ => floor >=? count
  | Infinity negative => negb negative
  | NaN => false
  end.

(** A template literal's [${x}] for an optional number [x]. *)
Definition interpolate (x : option Number) : string :=
  match x with
  | Some (Integer n) => Number_toString n
  | Some (Fraction _ printed) => printed
  | Some (Infinity negative) => if negative then "-Infinity" else "Infinity"
  | Some NaN => "NaN"
  | None => "undefined"
  end.

(** [x || 0]: the falsy numbers are 0 and [NaN]. *)
Definition or_zero (x : option Number) : Number :=
  match x with
  | Some (Integer n) => Integer (if n =? 0 then 0 else n)
  | Some NaN => Integer 0
  | Some x => x
  | None => Integer 0
  end.

(** [array[x]]: an integer from 0 on is an index; every other number names
    a property that an array does not have. *)
Definition Array_get {A} (l : list A) (x : Number) : option A :=
  match x with
  | Integer n => Array_get l n
  | _ => None
  end.

Section methods.
Context `{Collaborators}.

Definition getL1ToL2Message (this : L1TransactionReceipt.t)
    (l2SignerOrProvider : SignerOrProvider) (messageIndex : option Number)
  : IO (option L1ToL2MessageReaderOrWriter) :=
  allL1ToL2Messages ←
    L1TransactionReceipt.getL1ToL2Messages this l2SignerOrProvider;
  let messageCount := Z.of_nat (length allL1ToL2Messages) in
  if messageCount =? 0 then
    sync (throw (ArbTsError
      ("No l1 to L2 message found for "
       +:+ L1TransactionReceipt.transactionHash this)))
  else if match messageIndex with
          | Some x => ge x messageCount
          | None => false
          end then
    sync (throw (ArbTsError
      ("Provided message number out of range for "
       +:+ L1TransactionReceipt.transactionHash this
       +:+ "; index was " +:+ interpolate messageIndex
       +:+ ", but only " +:+ Number_toString messageCount
       +:+ " messages")))
  else if match messageIndex with
          | Some _ => false
          | None => messageCount >? 1
          end then
    sync (throw (ArbTsError
      (Number_toString messageCount +:+ " L2 messages for "
       +:+ L1TransactionReceipt.transactionHash this
       +:+ "; must provide messageNumberIndex (or use (signersAndProviders, l1Txn))")))
  else
    mret (Array_get allL1ToL2Messages (or_zero messageIndex)).

End methods.
End Doubles.

(** ** Call data as the connectivity layer writes it

    Bytes reach the methods as a string: [0x], then two lowercase
    hexadecimal digits for each byte. *)

Definition hex_char (n : N) : ascii :=
  ascii_of_N (if (n <? 10)%N then 48 + n else 87 + n)%N.

Definition hexlify_byte (b : byte) (s : string) : string :=
  let n := Byte.to_N b in
  String (hex_char (n / 16)) (String (hex_char (n mod 16)) s).

Definition hexlify (bytes : list byte) : string :=
  "0x" +:+ foldr hexlify_byte "" bytes.

(** The selector of [depositEth]: the four bytes 0f 4d 14 e9. *)
Definition depositEth_selector : list byte := [x0f; x4d; x14; xe9]%byte.

(** ** The failures of [getL1ToL2Message]

    The three errors that the method throws, under the names that the
    specification gives them. Each is an [ArbTsError]; the text is the one
    of the source. *)

Definition NoMessageFound (transactionHash : string) : Error :=
  ArbTsError ("No l1 to L2 message found for " +:+ transactionHash).

Definition IndexOutOfRange (transactionHash : string) (index count : Z) : Error :=
  ArbTsError
    ("Provided message number out of range for " +:+ transactionHash
     +:+ "; index was " +:+ Number_toString index
     +:+ ", but only " +:+ Number_toString count +:+ " messages").

Definition AmbiguousMessageCount (transactionHash : string) (count : Z) : Error :=
  ArbTsError
    (Number_toString count +:+ " L2 messages for " +:+ transactionHash
     +:+ "; must provide messageNumberIndex (or use (signersAndProviders, l1Txn))").

(** ** A concrete setting

    One instance of [Collaborators], small enough to compute with, and a
    few receipts. The topics are strings of the right shape, the decoder
    reads the three indexed arguments and the amount, and the identifier is
    a readable stand-in: none of the theorems below depends on them. *)

Module Sample.

Inductive handle : Type :=
| AProvider (p : Provider)
| ASigner (provider : option Provider).

Record message : Type := {
  l2 : handle;
  retryableCreationId : string;
  messageNumber : Z
}.

Record depositArgs : Type := {
  _from : string;
  _to : string;
  _sequenceNumber : Z;
  _amount : Z
}.

Definition delivered : string :=
  "0xff64905f73a67fb594e0f940a8075a860db489ad991e032f48c81123eb52d60b".
Definition deliveredFromOrigin : string :=
  "0xab532385be8f1005a4b6ba8fa20a2245facb346134ac739fe9a5198dc1580b9c".
Definition depositInitiated : string :=
  "0xb8910b9960c443aac3240b98585384e3a6f109fbf6969e264c3f183d69aba7e1".

Definition decode (log : Log) : Result depositArgs :=
  match topics log with
  | [_; f; t; n] =>
      match BigNumber_from (Some n), BigNumber_from (Some (data log)) with
      | inr n, inr a =>
          ok {| _from := f; _to := t; _sequenceNumber := n; _amount := a |}
      | _, _ => throw (AbiError "data out-of-bounds")
      end
  | _ => throw (AbiError "topic mismatch")
  end.

Definition collaborators : Collaborators := {|
  topic_InboxMessageDelivered := delivered;
  topic_InboxMessageDeliveredFromOrigin := deliveredFromOrigin;
  topic_DepositInitiated := depositInitiated;
  DepositInitiatedArgs := depositArgs;
  parseLog_args := decode;
  SignerOrProvider := handle;
  getProviderOrThrow := λ h,
    match h with
    | AProvider p | ASigner (Some p) => ok p
    | ASigner None => throw (ProviderError "missing provider")
    end;
  L1ToL2MessageReaderOrWriter := message;
  calculateRetryableCreationId := λ c n,
    if (0 <=? c) && (c <? 2 ^ 256) && (0 <=? n) && (n <? 2 ^ 256)
    then ok (Number_toString c +:+ "/" +:+ Number_toString n)
    else throw (ArgumentError "value out of range");
  fromRetryableCreationId := Build_message
|}.

Definition txHash : string := "0xabc1".

Definition log_at (i : Z) (ts : list string) (d : string) : Log := {|
  blockNumber := 7; blockHash := "0xb10c"; transactionIndex := 0;
  removed := false; address := "0x1b0c"; data := d; topics := ts;
  transactionHash := txHash; logIndex := i
|}.

Definition log_of : list string → string → Log := log_at 0.

Definition word (n : string) : string :=
  "0x00000000000000000000000000000000000000000000000000000000000000" +:+ n.

Definition raw (ls : list Log) : TransactionReceipt.t := {|
  TransactionReceipt.to := "0x1b0c";
  TransactionReceipt.from := "0xa11ce";
  TransactionReceipt.contractAddress := "";
  TransactionReceipt.transactionIndex := 0;
  TransactionReceipt.root := None;
  TransactionReceipt.gasUsed := 21000;
  TransactionReceipt.logsBloom := "0x00";
  TransactionReceipt.blockHash := "0xb10c";
  TransactionReceipt.transactionHash := txHash;
  TransactionReceipt.logs := ls;
  TransactionReceipt.blockNumber := 7;
  TransactionReceipt.confirmations := 1;
  TransactionReceipt.cumulativeGasUsed := 21000;
  TransactionReceipt.effectiveGasPrice := 1;
  TransactionReceipt.byzantium := true;
  TransactionReceipt.type := 2;
  TransactionReceipt.status := Some 1
|}.

Definition receipt (ls : list Log) : L1TransactionReceipt.t :=
  L1TransactionReceipt.new (raw ls).

(** An unrelated log, two message logs (numbers 9 then 5, in this order),
    a log with the topic of a message and no second topic, a deposit log
    and a deposit log whose data is not a number. *)
Definition other : Log := log_of ["0xdead"; word "01"] "0x".
Definition message9 : Log := log_of [delivered; word "09"] "0x".
Definition message5 : Log := log_of [deliveredFromOrigin; word "05"] "0x".
Definition bare : Log := log_of [delivered] "0x".
Definition deposit : Log :=
  log_of [depositInitiated; "0xa11ce"; "0xb0b"; word "09"] (word "64").
Definition badDeposit : Log :=
  log_of [depositInitiated; "0xa11ce"; "0xb0b"; word "09"] "0x".
Definition badDepositAt1 : Log :=
  log_at 1 [depositInitiated; "0xa11ce"; "0xb0b"; word "09"] "0x".

Definition arbitrum : Provider := {|
  getNetwork := ok {| name := "arbitrum"; chainId := 42161 |};
  getTransaction := λ h,
    if String.eqb h txHash
    then ok (Some {| hash := h; tx_data := "0x0f4d14e90000000000000001" |})
    else ok None
|}.

(** A provider of a chain whose id is 10^21, and one that knows no
    transaction. *)
Definition farChain : Provider := {|
  getNetwork := ok {| name := "far"; chainId := 10 ^ 21 |};
  getTransaction := λ _, ok None
|}.

(** A message log whose number is 2^256, one more than 32 bytes hold. *)
Definition messageTooLarge : Log :=
  log_of [delivered;
          "0x010000000000000000000000000000000000000000000000000000000000000000"]
    "0x".
Definition tooLarge : L1TransactionReceipt.t := receipt [messageTooLarge].

Definition twoMessages : L1TransactionReceipt.t :=
  receipt [other; message9; other; message5].
Definition oneMessage : L1TransactionReceipt.t := receipt [message9; other].
Definition noMessage : L1TransactionReceipt.t := receipt [other; deposit].
Definition bareMessage : L1TransactionReceipt.t := receipt [other; bare].
Definition badFirst : L1TransactionReceipt.t := receipt [badDeposit].
Definition badSecond : L1TransactionReceipt.t :=
  receipt [other; badDepositAt1].
Definition oneDeposit : L1TransactionReceipt.t :=
  receipt [message9; deposit; other].

Definition signer : handle := ASigner (Some arbitrum).

Definition messageFor (n : Z) : message := {|
  l2 := signer;
  retryableCreationId := "42161/" +:+ Number_toString n;
  messageNumber := n
|}.

(** A heap with a receipt object at 1 and its array of logs, one unrelated
    log, at 2. *)
Definition rawObject : Objects.fields := {|
  Objects.to := "0x1b0c";
  Objects.from := "0xa11ce";
  Objects.contractAddress := "";
  Objects.transactionIndex := 0;
  Objects.root := None;
  Objects.gasUsed := 21000;
  Objects.logsBloom := "0x00";
  Objects.blockHash := "0xb10c";
  Objects.transactionHash := txHash;
  Objects.logs := 2%positive;
  Objects.blockNumber := 7;
  Objects.confirmations := 1;
  Objects.cumulativeGasUsed := 21000;
  Objects.effectiveGasPrice := 1;
  Objects.byzantium := true;
  Objects.type := 2;
  Objects.status := Some 1
|}.

Definition objects : gmap L1TransactionReceipt.ref Objects.cell :=
  {[ 1%positive := Objects.Object rawObject;
     2%positive := Objects.Array [other] ]}.

Definition pending : L1TransactionReceipt.ContractTransaction := {|
  L1TransactionReceipt.ct_hash := txHash;
  L1TransactionReceipt.wait := λ confirmations,
    await (Call_wait confirmations)
          (ok (L1TransactionReceipt.Plain (raw [message9])))
|}.

End Sample.

(** * Properties *)

Import L1TransactionReceipt.

(** ** The monads and [Array_map] *)

Section Array_map_facts.
Context {A B : Type}.
Implicit Types (f : A → Result B) (l : list A).

Lemma Array_map_ok f l ys :
  Array_map f l = ok ys ↔ Forall2 (λ x y, f x = ok y) l ys.
Proof.
  unfold ok. revert ys. induction l as [|x l IH]; intros ys; simpl.
  - split; [intros [= <-]; constructor | by inversion 1].
  - split.
    + destruct (f x) as [e|y] eqn:Hx; [discriminate|].
      destruct (Array_map f l) as [e|ys'] eqn:Hl; [discriminate|].
      intros [= <-]. constructor; [done|]. by apply IH.
    + inversion 1 as [|? y ? ys' Hx Hl]; subst.
      rewrite Hx. apply IH in Hl. by rewrite Hl.
Qed.

Lemma Array_map_throw f l e :
  Array_map f l = throw e ↔
  ∃ good bad rest,
    l = good ++ bad :: rest
    ∧ Forall (λ x, ∃ y, f x = ok y) good
    ∧ f bad = throw e.
Proof.
  unfold ok, throw. induction l as [|x l IH]; simpl.
  - split; [discriminate|]. intros ([|??] & ? & ? & ? & _); discriminate.
  - split.
    + destruct (f x) as [e'|y] eqn:Hx.
      * intros [= ->]. by exists [], x, l.
      * destruct (Array_map f l) as [e'|ys'] eqn:Hl; [|discriminate].
        intros [= ->]. destruct IH as [IH _].
        destruct (IH eq_refl) as (good & bad & rest & -> & Hgood & Hbad).
        exists (x :: good), bad, rest. split_and!; [done| |done].
        constructor; eauto.
    + intros ([|x' good] & bad & rest & Hl & Hgood & Hbad); simplify_eq/=.
      * by rewrite Hbad.
      * inversion Hgood as [|?? [y Hy] Hgood']; subst. rewrite Hy.
        destruct IH as [_ IH]. rewrite IH; [done|]. by exists good, bad, rest.
Qed.

Lemma Array_map_total f (g : A → B) l :
  Forall (λ x, f x = ok (g x)) l → Array_map f l = ok (map g l).
Proof.
  intros Hl. apply Array_map_ok. induction Hl; constructor; auto.
Qed.

Lemma Array_map_length f l ys :
  Array_map f l = ok ys → length ys = length l.
Proof. intros Hl%Array_map_ok. symmetry. by eapply Forall2_length. Qed.

End Array_map_facts.

Ltac run_io :=
  unfold mbind, mret, IO_mbind, IO_mret, IO_bind, IO_ret,
    Result_mbind, Result_mret, Result_bind, sync, await, ok, throw in *;
  simpl.

Section IO_laws.
Context {A B C : Type}.

Lemma IO_left_identity (a : A) (f : A → IO B) : (x ← mret a; f x) = f a.
Proof. run_io. by destruct (f a). Qed.

Lemma IO_right_identity (m : IO A) : (x ← m; mret x) = m.
Proof.
  destruct m as [calls [e|a]]; run_io; [done|].
  by rewrite (right_id_L [] (++)).
Qed.

Lemma IO_associativity (m : IO A) (f : A → IO B) (g : B → IO C) :
  (y ← (x ← m; f x); g y) = (x ← m; y ← f x; g y).
Proof.
  destruct m as [calls [e|a]]; run_io; [done|].
  destruct (f a) as [calls' [e|b]]; [done|].
  destruct (g b) as [calls'' r]. by rewrite (assoc_L (++)).
Qed.

(** The calls made before a failure stay in the trace. *)
Lemma IO_trace_bind (m : IO A) (f : A → IO B) :
  ∃ more, trace (x ← m; f x) = trace m ++ more.
Proof.
  destruct m as [calls [e|a]]; run_io.
  - exists []. by rewrite (right_id_L [] (++)).
  - destruct (f a) as [calls' r]. by exists calls'.
Qed.

End IO_laws.

Lemma filter_sublist {A} (p : A → bool) (l : list A) :
  List.filter p l `sublist_of` l.
Proof.
  induction l as [|x l IH]; simpl; [constructor|].
  destruct (p x); by constructor.
Qed.

Lemma filter_elem_of {A} (p : A → bool) (l : list A) x :
  x ∈ List.filter p l ↔ x ∈ l ∧ p x = true.
Proof. rewrite !list_elem_of_In. apply filter_In. Qed.

Lemma filter_partition_length {A} (p : A → bool) (l : list A) :
  length l
  = (length (List.filter p l) + length (List.filter (negb ∘ p) l))%nat.
Proof.
  induction l as [|x l IH]; simpl; [done|].
  destruct (p x); simpl; lia.
Qed.

(** ** The constructor *)

(** On values, the constructor copies each of the seventeen fields of the
    receipt it is given, so that reading the object back through the
    interface [TransactionReceipt] gives the argument. *)
Lemma new_copies_every_field (tx : TransactionReceipt.t) :
  to (new tx) = TransactionReceipt.to tx
  ∧ from (new tx) = TransactionReceipt.from tx
  ∧ contractAddress (new tx) = TransactionReceipt.contractAddress tx
  ∧ transactionIndex (new tx) = TransactionReceipt.transactionIndex tx
  ∧ root (new tx) = TransactionReceipt.root tx
  ∧ gasUsed (new tx) = TransactionReceipt.gasUsed tx
  ∧ logsBloom (new tx) = TransactionReceipt.logsBloom tx
  ∧ blockHash (new tx) = TransactionReceipt.blockHash tx
  ∧ transactionHash (new tx) = TransactionReceipt.transactionHash tx
  ∧ logs (new tx) = TransactionReceipt.logs tx
  ∧ blockNumber (new tx) = TransactionReceipt.blockNumber tx
  ∧ confirmations (new tx) = TransactionReceipt.confirmations tx
  ∧ cumulativeGasUsed (new tx) = TransactionReceipt.cumulativeGasUsed tx
  ∧ effectiveGasPrice (new tx) = TransactionReceipt.effectiveGasPrice tx
  ∧ byzantium (new tx) = TransactionReceipt.byzantium tx
  ∧ type (new tx) = TransactionReceipt.type tx
  ∧ status (new tx) = TransactionReceipt.status tx
  ∧ asTransactionReceipt (new tx) = tx.
Proof. destruct tx. repeat split. Qed.

(** Wrapping a receipt that is already an instance of the class changes
    nothing. *)
Lemma new_asTransactionReceipt (r : t) : new (asTransactionReceipt r) = r.
Proof. by destruct r. Qed.

(** ** [getMessageNumbers] *)

Section getMessageNumbers_facts.
Context `{Collaborators}.

(** The method is the left-to-right decoding of the filtered logs. *)
Lemma getMessageNumbers_app (this : t) (before after : list Log) ns ns' :
  logs this = before ++ after →
  Array_map (λ log, BigNumber_from (topics log !! 1%nat))
    (List.filter isMessageDelivered before) = ok ns →
  Array_map (λ log, BigNumber_from (topics log !! 1%nat))
    (List.filter isMessageDelivered after) = ok ns' →
  getMessageNumbers this = ok (ns ++ ns').
Proof.
  unfold getMessageNumbers. intros -> H1%Array_map_ok H2%Array_map_ok.
  rewrite List.filter_app. apply Array_map_ok. by apply Forall2_app.
Qed.

(** A message log without a second topic, or with one that is no number,
    makes the method throw: the error is the one of [BigNumber.from] at
    the first such log. *)
Lemma getMessageNumbers_throw (this : t) e :
  getMessageNumbers this = throw e ↔
  ∃ good bad rest,
    List.filter isMessageDelivered (logs this) = good ++ bad :: rest
    ∧ Forall (λ log, ∃ n, decodes log n) good
    ∧ BigNumber_from (topics bad !! 1%nat) = throw e.
Proof. unfold getMessageNumbers. apply Array_map_throw. Qed.

(** Logs with another first topic do not matter. *)
Lemma getMessageNumbers_ignores_others (this this' : t) :
  List.filter isMessageDelivered (logs this)
  = List.filter isMessageDelivered (logs this') →
  getMessageNumbers this = getMessageNumbers this'.
Proof. unfold getMessageNumbers. by intros ->. Qed.

End getMessageNumbers_facts.

(** C2, as amended. Take a receipt in which every log whose first topic is
    the topic of [InboxMessageDelivered] or of
    [InboxMessageDeliveredFromOrigin] has a second topic that
    [BigNumber.from] reads as a number. With [k] such logs among [m] others,
    [getMessageNumbers] returns [k] numbers; the i-th number is the one read
    from the second topic of the i-th such log, in the order of the logs
    (nothing is sorted); a log with another first topic contributes
    nothing. The method is synchronous: its result is a [Result], it makes
    no call to the connectivity layer. *)
Theorem getMessageNumbers_extraction `{Collaborators} (this : t)
    (delivered : list Log) :
  delivered = List.filter isMessageDelivered (logs this) →
  Forall (λ log, ∃ n, decodes log n) delivered →
  ∃ numbers,
    getMessageNumbers this = ok numbers
    ∧ length numbers = length delivered
    ∧ Forall2 decodes delivered numbers
    ∧ delivered `sublist_of` logs this
    ∧ (∀ log, log ∈ delivered ↔ log ∈ logs this ∧ isMessageDelivered log = true)
    ∧ length (logs this)
      = (length delivered
         + length (List.filter (negb ∘ isMessageDelivered) (logs this)))%nat.
Proof.
  intros -> Hall.
  assert (∃ numbers, Forall2 decodes
            (List.filter isMessageDelivered (logs this)) numbers)
    as [numbers Hnumbers].
  { induction Hall as [|log l [n Hn] _ [ns IH]]; [by exists []|].
    exists (n :: ns). by constructor. }
  exists numbers. split_and!.
  - by apply Array_map_ok.
  - symmetry. by eapply Forall2_length.
  - done.
  - apply filter_sublist.
  - intros log. apply filter_elem_of.
  - apply filter_partition_length.
Qed.

Lemma getMessageNumbers_extraction_witness :
  Forall (λ log, ∃ n, decodes log n)
    (List.filter (isMessageDelivered (H := Sample.collaborators))
       (logs Sample.twoMessages))
  ∧ ∃ numbers,
      getMessageNumbers (H := Sample.collaborators) Sample.twoMessages
      = ok numbers
      ∧ length numbers = 2%nat.
Proof.
  assert (Forall (λ log, ∃ n, decodes log n)
            (List.filter (isMessageDelivered (H := Sample.collaborators))
               (logs Sample.twoMessages))) as Hall.
  { simpl. repeat constructor; eexists; reflexivity. }
  split; [exact Hall|].
  destruct (getMessageNumbers_extraction (H := Sample.collaborators)
              Sample.twoMessages _ eq_refl Hall)
    as (numbers & Hnumbers & Hlength & _).
  exists numbers. split; [exact Hnumbers | exact Hlength].
Defined.

(** The numbers come out in the order of the logs, here 9 before 5. *)
Example getMessageNumbers_keeps_log_order :
  getMessageNumbers (H := Sample.collaborators) Sample.twoMessages = ok [9; 5].
Proof. reflexivity. Qed.

(** C2, as stated, fails. A log may have the topic of [InboxMessageDelivered]
    and no second topic; the receipt below has one such log ([k = 1]) after
    an unrelated one, and [getMessageNumbers] throws on it instead of
    returning one number. *)
Lemma getMessageNumbers_without_second_topic :
  Sample.bare ∈ logs Sample.bareMessage
  ∧ topics Sample.bare = [Sample.delivered]
  ∧ length (List.filter (isMessageDelivered (H := Sample.collaborators))
              (logs Sample.bareMessage)) = 1%nat
  ∧ getMessageNumbers (H := Sample.collaborators) Sample.bareMessage
    = throw (BigNumberError None)
  ∧ ¬ ∃ numbers,
        getMessageNumbers (H := Sample.collaborators) Sample.bareMessage
        = ok numbers.
Proof.
  split_and!; try reflexivity.
  - simpl. set_solver.
  - intros [numbers Hnumbers]. vm_compute in Hnumbers. discriminate.
Qed.

(** ** Strings *)

Lemma append_cons (a : ascii) (s t : string) :
  String a s +:+ t = String a (s +:+ t).
Proof. reflexivity. Qed.

Lemma append_inv_head (p s t : string) : p +:+ s = p +:+ t → s = t.
Proof.
  induction p as [|a p IH]; [done|].
  rewrite !append_cons. intros [= Hst]. by apply IH.
Qed.

(** Two texts that agree, each a run of characters of one kind up to a
    first character of another kind, agree on the run and on the rest. *)
Lemma append_inv_delimiter (p : ascii → bool) (c : ascii) (s s' r r' : string) :
  string_forall p s = true →
  string_forall p s' = true →
  p c = false →
  s +:+ String c r = s' +:+ String c r' →
  s = s' ∧ r = r'.
Proof.
  intros Hs Hs' Hc. revert s' Hs'.
  induction s as [|a s IH]; intros [|a' s'] Hs'; rewrite ?append_cons.
  - by intros [= ->].
  - intros [= <- _]. simpl in Hs'. rewrite Hc in Hs'. done.
  - intros [= -> _]. simpl in Hs. rewrite Hc in Hs. done.
  - intros [= -> Heq]. simpl in Hs, Hs'.
    apply andb_true_iff in Hs as [_ Hs], Hs' as [_ Hs'].
    destruct (IH Hs s' Hs' Heq) as [-> ->]. done.
Qed.

Lemma string_forall_app (p : ascii → bool) (s t : string) :
  string_forall p (s +:+ t) = string_forall p s && string_forall p t.
Proof.
  induction s as [|a s IH]; [done|].
  rewrite append_cons. simpl. by rewrite IH, andb_assoc.
Qed.

Lemma string_forall_impl (p q : ascii → bool) (s : string) :
  (∀ c, p c = true → q c = true) →
  string_forall p s = true → string_forall q s = true.
Proof.
  intros Hpq. induction s as [|a s IH]; [done|]. simpl.
  intros [Ha Hs]%andb_true_iff. by rewrite (Hpq _ Ha), IH.
Qed.

Lemma digit_char_numeral (c : ascii) : digit_char c = true → numeral_char c = true.
Proof. unfold numeral_char, digit_char. by intros ->. Qed.

Lemma numeral_char_printed (c : ascii) :
  numeral_char c = true → printed_char c = true.
Proof. unfold printed_char. by intros ->. Qed.

Lemma digit_char_printed (c : ascii) : digit_char c = true → printed_char c = true.
Proof. intros Hc. by apply numeral_char_printed, digit_char_numeral. Qed.

(** ** Numbers written and read back *)

Lemma parse_hex_of_decimal (d : Decimal.uint) :
  parse_hex (NilZero.string_of_uint d) = None.
Proof. destruct d as [|d|d|d|d|d|d|d|d|d|d]; try done; by destruct d. Qed.

Lemma parse_hex_signed_of_decimal (d : Decimal.signed_int) :
  parse_hex_signed (NilZero.string_of_int d) = None.
Proof.
  destruct d as [d|d]; simpl.
  - destruct d as [|d|d|d|d|d|d|d|d|d|d]; try done; by destruct d.
  - by rewrite parse_hex_of_decimal.
Qed.

(** A numeral is read back as its integer. *)
Lemma BigNumber_from_decimal (n : Z) : BigNumber_from (Some (decimal n)) = ok n.
Proof.
  unfold BigNumber_from, decimal.
  rewrite parse_hex_signed_of_decimal, NilZero.isi.
  - by rewrite DecimalZ.of_to.
  - destruct n; simpl; [done| |done].
    intros [= Hnil]. by apply DecimalPos.Unsigned.to_uint_nonnil in Hnil.
  - destruct n; simpl; [done|done|].
    intros [= Hnil]. by apply DecimalPos.Unsigned.to_uint_nonnil in Hnil.
Qed.

Lemma decimal_inj (n n' : Z) : decimal n = decimal n' → n = n'.
Proof.
  intros Heq. pose proof (BigNumber_from_decimal n) as Hn.
  rewrite Heq, BigNumber_from_decimal in Hn. by injection Hn.
Qed.

Lemma string_of_uint_digits (d : Decimal.uint) :
  string_forall digit_char (NilEmpty.string_of_uint d) = true.
Proof. induction d; simpl; done. Qed.

Lemma string_of_int_numeral (d : Decimal.signed_int) :
  string_forall numeral_char (NilZero.string_of_int d) = true.
Proof.
  destruct d as [d|d]; simpl;
    (destruct d;
     [done
     | apply (string_forall_impl digit_char), (string_of_uint_digits (_ d));
       apply digit_char_numeral ..]).
Qed.

Lemma decimal_numeral (n : Z) : string_forall numeral_char (decimal n) = true.
Proof. apply string_of_int_numeral. Qed.

(** The numeral of a positive integer: a digit, then digits. *)
Lemma decimal_positive (n : Z) :
  0 < n →
  ∃ first others,
    decimal n = String first others
    ∧ digit_char first = true
    ∧ string_forall digit_char others = true.
Proof.
  destruct n as [|p|p]; [lia| |lia]. intros _.
  unfold decimal. simpl.
  pose proof (string_of_uint_digits (Pos.to_uint p)) as Hall.
  pose proof (DecimalPos.Unsigned.to_uint_nonnil p) as Hnil.
  unfold NilZero.string_of_uint.
  destruct (Pos.to_uint p) as [|d|d|d|d|d|d|d|d|d|d]; [done|..];
    simpl in *; eauto.
Qed.

Lemma decimal_head (n : Z) :
  ∃ a s, decimal n = String a s ∧ numeral_char a = true.
Proof.
  pose proof (decimal_numeral n) as Hall.
  destruct (decimal n) as [|a s] eqn:Hn.
  - unfold decimal in Hn.
    destruct (Z.to_int n) as [d|d]; [by destruct d | done].
  - exists a, s. split; [done|]. simpl in Hall.
    by apply andb_true_iff in Hall as [? _].
Qed.

(** What [BigNumber.from] reads as a decimal string is made of the
    characters of a numeral. *)
Lemma int_of_string_numeral (s : string) (d : Decimal.signed_int) :
  NilZero.int_of_string s = Some d → string_forall numeral_char s = true.
Proof. intros <-%NilZero.sis. apply string_of_int_numeral. Qed.

Lemma strip_zeros_forall (p : ascii → bool) (s : string) :
  string_forall p s = true → string_forall p (strip_zeros s) = true.
Proof.
  induction s as [|c s IH]; [done|]. simpl.
  intros [Hc Hs]%andb_true_iff. specialize (IH Hs).
  destruct (strip_zeros s) as [|c' kept].
  - destruct (Ascii.eqb c "0"); simpl; [done|]. by rewrite Hc.
  - simpl in *. by rewrite Hc, IH.
Qed.

(** Trailing zeros are all that [strip_zeros] takes away. *)
Lemma strip_zeros_inj (s s' : string) :
  String.length s = String.length s' →
  strip_zeros s = strip_zeros s' → s = s'.
Proof.
  revert s'. induction s as [|c s IH]; intros [|c' s']; try done.
  simpl. intros [= Hlength].
  destruct (strip_zeros s) as [|k ks] eqn:Hs;
    destruct (strip_zeros s') as [|k' ks'] eqn:Hs'.
  - destruct (Ascii.eqb_spec c "0") as [->|];
      destruct (Ascii.eqb_spec c' "0") as [->|]; try done.
    + intros _. f_equal. by apply IH.
    + intros [= ->]. f_equal. by apply IH.
  - by destruct (Ascii.eqb c "0").
  - by destruct (Ascii.eqb c' "0").
  - intros [= -> Hk Hks]. f_equal. apply IH; [done|]. by rewrite Hk, Hks.
Qed.

(** The part of an exponent form between the first digit and [e]. *)
Lemma fraction_no_e (others : string) :
  string_forall digit_char others = true →
  string_forall (λ c, negb (Ascii.eqb c "e"))
    match strip_zeros others with
    | EmptyString => EmptyString
    | fraction => "." +:+ fraction
    end = true.
Proof.
  intros Hall%(strip_zeros_forall digit_char).
  destruct (strip_zeros others) as [|c kept]; [done|].
  rewrite string_forall_app. apply andb_true_iff. split; [done|].
  revert Hall. apply string_forall_impl. intros a.
  unfold digit_char. by destruct a as [[] [] [] [] [] [] [] []].
Qed.

Lemma exponent_form_inj (first first' : ascii) (others others' : string) :
  string_forall digit_char others = true →
  string_forall digit_char others' = true →
  exponent_form (String first others) = exponent_form (String first' others') →
  String first others = String first' others'.
Proof.
  intros Hall Hall'. unfold exponent_form. intros [= -> Heq].
  apply (append_inv_delimiter (λ c, negb (Ascii.eqb c "e"))) in Heq
    as [Hfraction Hexponent]; [|by apply fraction_no_e..|done].
  injection Hexponent as Hexponent%decimal_inj%Nat2Z.inj.
  f_equal. apply strip_zeros_inj; [done|].
  destruct (strip_zeros others) as [|c kept];
    destruct (strip_zeros others') as [|c' kept']; try done.
  by apply (append_inv_head ".") in Hfraction.
Qed.

Lemma exponent_form_printed (first : ascii) (others : string) :
  digit_char first = true →
  string_forall digit_char others = true →
  string_forall printed_char (exponent_form (String first others)) = true.
Proof.
  intros Hfirst Hall. unfold exponent_form. cbn [string_forall].
  rewrite (digit_char_printed _ Hfirst), !string_forall_app.
  apply (strip_zeros_forall digit_char) in Hall.
  assert (string_forall printed_char
            (decimal (Z.of_nat (String.length others))) = true) as ->.
  { apply (string_forall_impl numeral_char), decimal_numeral.
    apply numeral_char_printed. }
  assert (string_forall printed_char "e+" = true) as -> by done.
  rewrite !andb_true_r. cbn [andb].
  destruct (strip_zeros others) as [|c kept]; [done|].
  rewrite string_forall_app.
  by rewrite (string_forall_impl _ _ _ digit_char_printed Hall).
Qed.

(** An exponent form has an [e], which no numeral has. *)
Lemma exponent_form_not_numeral (first : ascii) (others : string) :
  string_forall numeral_char (exponent_form (String first others)) = false.
Proof.
  unfold exponent_form. simpl. rewrite !string_forall_app. simpl.
  by rewrite !andb_false_r.
Qed.

Lemma parse_hex_of_exponent_form (first : ascii) (others : string) :
  parse_hex (exponent_form (String first others)) = None
  ∧ parse_hex_signed (exponent_form (String first others)) = None.
Proof.
  unfold exponent_form.
  destruct (strip_zeros others) as [|c kept]; rewrite ?append_cons;
    by destruct first as [[] [] [] [] [] [] [] []].
Qed.

(** The two forms of [Number_toString]. *)
Lemma Number_toString_plain (n : Z) :
  Z.abs n < 10 ^ 21 → Number_toString n = decimal n.
Proof.
  intros Hn. unfold Number_toString.
  by destruct (Z.ltb_spec (Z.abs n) (10 ^ 21)); [|lia].
Qed.

Lemma Number_toString_exponent (n : Z) :
  10 ^ 21 ≤ Z.abs n →
  ∃ first others,
    digit_char first = true
    ∧ string_forall digit_char others = true
    ∧ decimal (Z.abs n) = String first others
    ∧ Number_toString n
      = (if n <? 0 then "-" else "") +:+ exponent_form (String first others).
Proof.
  intros Hn.
  destruct (decimal_positive (Z.abs n)) as (first & others & Hd & Hfirst & Hall);
    [lia|].
  exists first, others. split_and!; [done..|].
  unfold Number_toString.
  destruct (Z.ltb_spec (Z.abs n) (10 ^ 21)); [lia|].
  destruct (Z.ltb_spec n 0).
  - by rewrite <- Hd, Z.abs_neq by lia.
  - by rewrite <- Hd, Z.abs_eq by lia.
Qed.

Lemma isSafeInteger_plain (n : Z) : isSafeInteger n → Z.abs n < 10 ^ 21.
Proof. unfold isSafeInteger. lia. Qed.

(** [BigNumber.from(n.toString())] is [n] as long as [n] is printed as a
    numeral: the chain id then survives its way through a string. *)
Lemma BigNumber_from_Number_toString (n : Z) :
  Z.abs n < 10 ^ 21 → BigNumber_from (Some (Number_toString n)) = ok n.
Proof. intros Hn. rewrite Number_toString_plain by done. apply BigNumber_from_decimal. Qed.

(** From 10^21 on the string has an exponent and [BigNumber.from] throws. *)
Lemma BigNumber_from_exponent (n : Z) :
  10 ^ 21 ≤ Z.abs n →
  BigNumber_from (Some (Number_toString n))
  = throw (BigNumberError (Some (Number_toString n))).
Proof.
  intros (first & others & _ & _ & _ & ->)%Number_toString_exponent.
  destruct (parse_hex_of_exponent_form first others) as [Hhex Hsigned].
  pose proof (exponent_form_not_numeral first others) as Hnot.
  unfold BigNumber_from. destruct (n <? 0).
  - change ("-" +:+ exponent_form (String first others))
      with (String "-" (exponent_form (String first others))).
    cbn [parse_hex_signed]. rewrite Hhex. cbn [fmap option_fmap option_map].
    destruct (NilZero.int_of_string _) as [d|] eqn:Hd; [|done].
    apply int_of_string_numeral in Hd. cbn [string_forall] in Hd.
    apply andb_true_iff in Hd as [_ Hd]. by rewrite Hnot in Hd.
  - change ("" +:+ exponent_form (String first others))
      with (exponent_form (String first others)).
    rewrite Hsigned.
    destruct (NilZero.int_of_string _) as [d|] eqn:Hd; [|done].
    apply int_of_string_numeral in Hd. by rewrite Hnot in Hd.
Qed.

Lemma Number_toString_printed (n : Z) :
  string_forall printed_char (Number_toString n) = true.
Proof.
  destruct (Z.lt_ge_cases (Z.abs n) (10 ^ 21)) as [Hn|Hn].
  - rewrite Number_toString_plain by done.
    apply (string_forall_impl numeral_char), decimal_numeral.
    apply numeral_char_printed.
  - apply Number_toString_exponent in Hn
      as (first & others & Hfirst & Hall & _ & ->).
    rewrite string_forall_app, exponent_form_printed by done.
    by destruct (n <? 0).
Qed.

Lemma Number_toString_head (n : Z) :
  ∃ a s, Number_toString n = String a s ∧ numeral_char a = true.
Proof.
  destruct (Z.lt_ge_cases (Z.abs n) (10 ^ 21)) as [Hn|Hn].
  - rewrite Number_toString_plain by done. apply decimal_head.
  - apply Number_toString_exponent in Hn
      as (first & others & Hfirst & _ & _ & ->).
    destruct (n <? 0); [by eexists _, _|].
    unfold exponent_form. eexists _, _. split; [reflexivity|].
    by apply digit_char_numeral.
Qed.

Lemma Number_toString_inj (n n' : Z) :
  Number_toString n = Number_toString n' → n = n'.
Proof.
  assert (∀ m m', Z.abs m < 10 ^ 21 → 10 ^ 21 ≤ Z.abs m' →
                  Number_toString m ≠ Number_toString m') as Hmixed.
  { intros m m' Hm (first & others & _ & _ & _ & Hm')%Number_toString_exponent Heq.
    pose proof (decimal_numeral m) as Hall.
    rewrite <- Number_toString_plain, Heq, Hm', string_forall_app in Hall by done.
    rewrite exponent_form_not_numeral, andb_false_r in Hall. done. }
  destruct (Z.lt_ge_cases (Z.abs n) (10 ^ 21)) as [Hn|Hn];
    destruct (Z.lt_ge_cases (Z.abs n') (10 ^ 21)) as [Hn'|Hn'].
  - rewrite !Number_toString_plain by done. apply decimal_inj.
  - intros Heq. by destruct (Hmixed n n').
  - intros Heq. by destruct (Hmixed n' n).
  - destruct (Number_toString_exponent n Hn)
      as (first & others & Hfirst & Hall & Hd & ->).
    destruct (Number_toString_exponent n' Hn')
      as (first' & others' & Hfirst' & Hall' & Hd' & ->).
    assert (∀ a b, digit_char a = true → exponent_form (String a b) ≠
              "-" +:+ exponent_form (String first others)
            ∧ exponent_form (String a b) ≠
              "-" +:+ exponent_form (String first' others')) as Hsign.
    { intros a b Ha. unfold exponent_form.
      split; intros [= -> _]; done. }
    destruct (Z.ltb_spec n 0); destruct (Z.ltb_spec n' 0).
    + intros Heq%(append_inv_head "-")%exponent_form_inj; [|done..].
      rewrite <- Hd, <- Hd' in Heq. apply decimal_inj in Heq. lia.
    + intros Heq. symmetry in Heq. by destruct (Hsign first' others' Hfirst') as [? _].
    + intros Heq. by destruct (Hsign first others Hfirst) as [_ ?].
    + change ("" +:+ ?s) with s.
      intros Heq%exponent_form_inj; [|done..].
      rewrite <- Hd, <- Hd' in Heq. apply decimal_inj in Heq. lia.
Qed.

(** ** [getL1ToL2Messages] *)

Section getL1ToL2Messages_facts.
Context `{Collaborators}.
Implicit Types (this : t) (handle : SignerOrProvider).

(** The message built for one number. A chain id that is printed as a
    numeral survives its way through the string [chainID], and the
    message, or the failure, is the one of the identifier. *)
Lemma messageOfNumber_plain handle (chain mn : Z) :
  Z.abs chain < 10 ^ 21 →
  messageOfNumber handle (Number_toString chain) mn
  = match calculateRetryableCreationId chain mn with
    | inl e => inl e
    | inr id => ok (fromRetryableCreationId handle id mn)
    end.
Proof.
  intros Hchain. unfold messageOfNumber.
  by rewrite BigNumber_from_Number_toString.
Qed.

Lemma messageOfNumber_ok handle (chain mn : Z) (id : string) :
  Z.abs chain < 10 ^ 21 →
  calculateRetryableCreationId chain mn = ok id →
  messageOfNumber handle (Number_toString chain) mn
  = ok (fromRetryableCreationId handle id mn).
Proof. intros Hchain Hid. by rewrite messageOfNumber_plain, Hid. Qed.

(** A chain id that is printed with an exponent is refused. *)
Lemma messageOfNumber_exponent handle (chain mn : Z) :
  10 ^ 21 ≤ Z.abs chain →
  messageOfNumber handle (Number_toString chain) mn
  = throw (BigNumberError (Some (Number_toString chain))).
Proof.
  intros Hchain. unfold messageOfNumber.
  by rewrite BigNumber_from_exponent.
Qed.

(** The method, step by step: what it calls and where it may stop. *)
Lemma getL1ToL2Messages_steps this handle :
  getL1ToL2Messages this handle =
  match getProviderOrThrow handle with
  | inl e => ([], inl e)
  | inr provider =>
      match getNetwork provider with
      | inl e => ([Call_getNetwork], inl e)
      | inr network =>
          match getMessageNumbers this with
          | inl e => ([Call_getNetwork], inl e)
          | inr [] => ([Call_getNetwork], inr [])
          | inr messageNumbers =>
              ([Call_getNetwork],
               Array_map
                 (messageOfNumber handle (Number_toString (chainId network)))
                 messageNumbers)
          end
      end
  end.
Proof.
  unfold getL1ToL2Messages, Provider_getNetwork.
  destruct (getProviderOrThrow handle) as [e|provider]; [done|].
  run_io. destruct (getNetwork provider) as [e|network]; [done|].
  simpl. destruct (getMessageNumbers this) as [e|[|mn mns]]; done.
Qed.

(** Without a provider nothing is called. *)
Lemma getL1ToL2Messages_no_provider this handle e :
  getProviderOrThrow handle = throw e →
  getL1ToL2Messages this handle = ([], throw e).
Proof. rewrite getL1ToL2Messages_steps. by intros ->. Qed.

Lemma getL1ToL2Messages_no_network this handle provider e :
  getProviderOrThrow handle = ok provider →
  getNetwork provider = throw e →
  getL1ToL2Messages this handle = ([Call_getNetwork], throw e).
Proof.
  intros Hprovider Hnetwork.
  rewrite getL1ToL2Messages_steps, Hprovider. cbn. by rewrite Hnetwork.
Qed.

(** The logs are read after the chain id has been fetched. *)
Lemma getL1ToL2Messages_no_numbers this handle provider network e :
  getProviderOrThrow handle = ok provider →
  getNetwork provider = ok network →
  getMessageNumbers this = throw e →
  getL1ToL2Messages this handle = ([Call_getNetwork], throw e).
Proof.
  intros Hprovider Hnetwork Hnumbers.
  rewrite getL1ToL2Messages_steps, Hprovider. cbn.
  rewrite Hnetwork. cbn. by rewrite Hnumbers.
Qed.

(** Without a message log the method can only fail where the handle
    fails: there is no provider, or [getNetwork] is rejected. *)
Lemma getL1ToL2Messages_empty_steps this handle :
  List.filter isMessageDelivered (logs this) = [] →
  getL1ToL2Messages this handle =
  match getProviderOrThrow handle with
  | inl e => ([], inl e)
  | inr provider =>
      ([Call_getNetwork],
       match getNetwork provider with
       | inl e => inl e
       | inr _ => inr []
       end)
  end.
Proof.
  intros Hnone. rewrite getL1ToL2Messages_steps.
  unfold getMessageNumbers. rewrite Hnone. cbn.
  destruct (getProviderOrThrow handle) as [e|provider]; [done|].
  by destruct (getNetwork provider).
Qed.

(** With the chain id at hand, the method is the map over the numbers. *)
Lemma getL1ToL2Messages_as_map this handle (provider : Provider)
    (network : Network) :
  getProviderOrThrow handle = ok provider →
  getNetwork provider = ok network →
  getL1ToL2Messages this handle =
  ([Call_getNetwork],
   match getMessageNumbers this with
   | inl e => inl e
   | inr messageNumbers =>
       Array_map (messageOfNumber handle (Number_toString (chainId network)))
         messageNumbers
   end).
Proof.
  intros Hprovider Hnetwork.
  rewrite getL1ToL2Messages_steps, Hprovider. cbn. rewrite Hnetwork. cbn.
  by destruct (getMessageNumbers this) as [e|[|mn mns]].
Qed.

(** The map over the numbers, when every identifier is computed. *)
Lemma messages_of_numbers handle (chain : Z) (numbers : list Z)
    (ids : list string) :
  Z.abs chain < 10 ^ 21 →
  Forall2 (λ mn id, calculateRetryableCreationId chain mn = ok id) numbers ids →
  Array_map (messageOfNumber handle (Number_toString chain)) numbers
  = ok (zip_with (λ mn id, fromRetryableCreationId handle id mn) numbers ids).
Proof.
  intros Hchain Hids. apply Array_map_ok.
  induction Hids as [|mn id numbers ids Hid _ IH]; simpl; constructor; [|done].
  by apply messageOfNumber_ok.
Qed.

End getL1ToL2Messages_facts.

(** C5, as amended. Let the handle give a provider, the provider answer
    [getNetwork] with a network, and [getMessageNumbers] return the numbers
    of the receipt.
    - When the chain id is a safe integer and
      [calculateRetryableCreationId] gives an identifier for the chain id
      and each number, [getL1ToL2Messages] makes the one call [getNetwork]
      and returns one message for each number, in the same order: the
      message that [fromRetryableCreationId] builds from the handle, that
      identifier and the number. The result is as long as the list of
      numbers.
    - When [calculateRetryableCreationId] throws for a number, and not for
      the numbers before it, [getL1ToL2Messages] fails with that error.
    - When the chain id is 10^21 or more in magnitude and there is a
      number, [getL1ToL2Messages] fails with the error of [BigNumber.from]
      for the chain id as it is printed, with an exponent. *)
Theorem getL1ToL2Messages_one_per_number `{Collaborators} (this : t)
    (handle : SignerOrProvider) (provider : Provider) (network : Network)
    (messageNumbers : list Z) :
  getProviderOrThrow handle = ok provider →
  getNetwork provider = ok network →
  getMessageNumbers this = ok messageNumbers →
  (isSafeInteger (chainId network) →
   ∀ ids,
     Forall2 (λ mn id,
                calculateRetryableCreationId (chainId network) mn = ok id)
       messageNumbers ids →
     ∃ messages,
       getL1ToL2Messages this handle = ([Call_getNetwork], ok messages)
       ∧ messages
         = zip_with (λ mn id, fromRetryableCreationId handle id mn)
             messageNumbers ids
       ∧ length messages = length messageNumbers)
  ∧ (isSafeInteger (chainId network) →
     ∀ good mn rest ids e,
       messageNumbers = good ++ mn :: rest →
       Forall2 (λ mn id,
                  calculateRetryableCreationId (chainId network) mn = ok id)
         good ids →
       calculateRetryableCreationId (chainId network) mn = throw e →
       getL1ToL2Messages this handle = ([Call_getNetwork], throw e))
  ∧ (10 ^ 21 ≤ Z.abs (chainId network) →
     messageNumbers ≠ [] →
     ∃ printed,
       getL1ToL2Messages this handle
       = ([Call_getNetwork], throw (BigNumberError (Some printed)))).
Proof.
  intros Hprovider Hnetwork Hnumbers.
  rewrite (getL1ToL2Messages_as_map _ _ _ _ Hprovider Hnetwork), Hnumbers.
  split_and!.
  - intros Hsafe%isSafeInteger_plain ids Hids. eexists. split_and!; [|done|].
    + f_equal. by apply messages_of_numbers.
    + rewrite length_zip_with. apply Forall2_length in Hids. lia.
  - intros Hsafe%isSafeInteger_plain good mn rest ids e -> Hids Hmn.
    f_equal. apply Array_map_throw. exists good, mn, rest. split_and!.
    + done.
    + clear Hnumbers. induction Hids as [|n id good ids Hid _ IH];
        constructor; [|done].
      eexists. by apply messageOfNumber_ok.
    + by rewrite messageOfNumber_plain, Hmn.
  - intros Hlarge Hsome. destruct messageNumbers as [|mn mns]; [done|].
    exists (Number_toString (chainId network)).
    f_equal. simpl. by rewrite messageOfNumber_exponent.
Qed.

Lemma getL1ToL2Messages_one_per_number_witness :
  getProviderOrThrow (Collaborators := Sample.collaborators) Sample.signer
  = ok Sample.arbitrum
  ∧ getNetwork Sample.arbitrum = ok {| name := "arbitrum"; chainId := 42161 |}
  ∧ getMessageNumbers (H := Sample.collaborators) Sample.twoMessages = ok [9; 5]
  ∧ isSafeInteger 42161
  ∧ ∃ messages,
      getL1ToL2Messages (H := Sample.collaborators) Sample.twoMessages
        Sample.signer
      = ([Call_getNetwork], ok messages)
      ∧ length messages = 2%nat.
Proof.
  assert (isSafeInteger 42161) as Hsafe by (unfold isSafeInteger; lia).
  split; [reflexivity|]. split; [reflexivity|]. split; [reflexivity|].
  split; [exact Hsafe|].
  destruct (getL1ToL2Messages_one_per_number (H := Sample.collaborators)
              Sample.twoMessages Sample.signer
              Sample.arbitrum {| name := "arbitrum"; chainId := 42161 |}
              [9; 5] eq_refl eq_refl eq_refl)
    as (Hresolves & _ & _).
  destruct (Hresolves Hsafe ["42161/9"; "42161/5"])
    as (messages & Hmessages & _ & Hlength).
  { repeat constructor. }
  exists messages. split; [exact Hmessages | exact Hlength].
Defined.

(** C5, as stated, fails: the numbers are extracted and no message is
    returned. On a chain whose id is 10^21 the chain id is printed as
    [1e+21], which [BigNumber.from] refuses inside the map; and for the
    number 2^256, which a second topic of 33 bytes gives, the identifier is
    not computed. In both cases [getL1ToL2Messages] fails after the call
    [getNetwork]. *)
Lemma getL1ToL2Messages_throws_in_map :
  getMessageNumbers (H := Sample.collaborators) Sample.oneMessage = ok [9]
  ∧ getNetwork Sample.farChain = ok {| name := "far"; chainId := 10 ^ 21 |}
  ∧ Number_toString (10 ^ 21) = "1e+21"
  ∧ getL1ToL2Messages (H := Sample.collaborators) Sample.oneMessage
      (Sample.AProvider Sample.farChain)
    = ([Call_getNetwork], throw (BigNumberError (Some "1e+21")))
  ∧ getMessageNumbers (H := Sample.collaborators) Sample.tooLarge
    = ok [2 ^ 256]
  ∧ getL1ToL2Messages (H := Sample.collaborators) Sample.tooLarge
      Sample.signer
    = ([Call_getNetwork], throw (ArgumentError "value out of range"))
  ∧ ¬ ∃ messages,
        outcome (getL1ToL2Messages (H := Sample.collaborators)
                   Sample.oneMessage (Sample.AProvider Sample.farChain))
        = ok messages.
Proof.
  split_and!; try reflexivity.
  intros [messages Hmessages]. vm_compute in Hmessages. discriminate.
Qed.

(** C4. A receipt without a log of [InboxMessageDelivered] or
    [InboxMessageDeliveredFromOrigin] gives the empty list of messages:
    once the handle has given the chain id, [getL1ToL2Messages] resolves
    with [[]] and throws nothing. *)
Theorem getL1ToL2Messages_empty_is_success `{Collaborators} (this : t)
    (handle : SignerOrProvider) (provider : Provider) (network : Network) :
  List.filter isMessageDelivered (logs this) = [] →
  getProviderOrThrow handle = ok provider →
  getNetwork provider = ok network →
  getMessageNumbers this = ok []
  ∧ getL1ToL2Messages this handle = ([Call_getNetwork], ok []).
Proof.
  intros Hnone Hprovider Hnetwork.
  assert (getMessageNumbers this = ok []) as Hnumbers.
  { unfold getMessageNumbers. by rewrite Hnone. }
  split; [done|].
  rewrite getL1ToL2Messages_steps, Hprovider. cbn.
  rewrite Hnetwork. cbn. by rewrite Hnumbers.
Qed.

Lemma getL1ToL2Messages_empty_is_success_witness :
  List.filter (isMessageDelivered (H := Sample.collaborators))
    (logs Sample.noMessage) = []
  ∧ getL1ToL2Messages (H := Sample.collaborators) Sample.noMessage
      (Sample.AProvider Sample.arbitrum)
    = ([Call_getNetwork], ok []).
Proof.
  split; [reflexivity|].
  apply (getL1ToL2Messages_empty_is_success (H := Sample.collaborators)
           Sample.noMessage (Sample.AProvider Sample.arbitrum)
           Sample.arbitrum {| name := "arbitrum"; chainId := 42161 |});
    reflexivity.
Defined.

(** ** What the errors of [getL1ToL2Message] tell

    The three errors differ from one another, and the text of each gives
    back what the method put into it. *)

Lemma NoMessageFound_hash (h h' : string) :
  NoMessageFound h = NoMessageFound h' → h = h'.
Proof. intros [= Heq]. by apply append_inv_head in Heq. Qed.

Lemma IndexOutOfRange_payload (h : string) (index index' count count' : Z) :
  IndexOutOfRange h index count = IndexOutOfRange h index' count' →
  index = index' ∧ count = count'.
Proof.
  intros [= Heq].
  do 3 apply append_inv_head in Heq.
  apply (append_inv_delimiter printed_char) in Heq
    as [Hindex Heq]; [|apply Number_toString_printed..|done].
  apply (append_inv_head " but only ") in Heq.
  apply (append_inv_delimiter printed_char) in Heq
    as [Hcount _]; [|apply Number_toString_printed..|done].
  split; by apply Number_toString_inj.
Qed.

Lemma AmbiguousMessageCount_count (h : string) (count count' : Z) :
  AmbiguousMessageCount h count = AmbiguousMessageCount h count' →
  count = count'.
Proof.
  intros [= Heq].
  apply (append_inv_delimiter printed_char) in Heq
    as [Hcount _]; [|apply Number_toString_printed..|done].
  by apply Number_toString_inj.
Qed.

Lemma NoMessageFound_not_IndexOutOfRange h h' index count :
  NoMessageFound h ≠ IndexOutOfRange h' index count.
Proof. intros [= Heq]. Qed.

Lemma NoMessageFound_not_AmbiguousMessageCount h h' count :
  NoMessageFound h ≠ AmbiguousMessageCount h' count.
Proof.
  intros [= Heq]. destruct (Number_toString_head count) as (a & s & Hc & Ha).
  rewrite Hc in Heq. by injection Heq as <- _.
Qed.

Lemma IndexOutOfRange_not_AmbiguousMessageCount h h' index count count' :
  IndexOutOfRange h index count ≠ AmbiguousMessageCount h' count'.
Proof.
  intros [= Heq]. destruct (Number_toString_head count') as (a & s & Hc & Ha).
  rewrite Hc in Heq. by injection Heq as <- _.
Qed.

(** ** [getL1ToL2Message] *)

Section getL1ToL2Message_facts.
Context `{Collaborators}.
Implicit Types (this : t) (handle : SignerOrProvider).

(** What the method does once [getL1ToL2Messages] has resolved. *)
Lemma getL1ToL2Message_steps this handle messageIndex calls messages :
  getL1ToL2Messages this handle = (calls, ok messages) →
  getL1ToL2Message this handle messageIndex =
  (calls,
   let messageCount := Z.of_nat (length messages) in
   if messageCount =? 0 then
     throw (NoMessageFound (transactionHash this))
   else
     match messageIndex with
     | Some i =>
         if i >=? messageCount then
           throw (IndexOutOfRange (transactionHash this) i messageCount)
         else ok (Array_get messages i)
     | None =>
         if messageCount >? 1 then
           throw (AmbiguousMessageCount (transactionHash this) messageCount)
         else ok (Array_get messages 0)
     end).
Proof.
  unfold getL1ToL2Message. intros ->. run_io.
  destruct (Z.of_nat (length messages) =? 0);
    [by rewrite (right_id_L [] (++))|].
  destruct messageIndex as [i|]; simpl.
  - destruct (i >=? Z.of_nat (length messages));
      rewrite (right_id_L [] (++)); [done|].
    by destruct (Z.eqb_spec i 0) as [->|].
  - by destruct (Z.of_nat (length messages) >? 1);
      rewrite (right_id_L [] (++)).
Qed.

(** A failure of [getL1ToL2Messages] is the failure of the method. *)
Lemma getL1ToL2Message_propagates this handle messageIndex calls e :
  getL1ToL2Messages this handle = (calls, throw e) →
  getL1ToL2Message this handle messageIndex = (calls, throw e).
Proof. unfold getL1ToL2Message. intros ->. by run_io. Qed.

End getL1ToL2Message_facts.

(** C3. Let [getL1ToL2Messages] resolve with a list of [count] messages.
    Then [getL1ToL2Message] branches, in this order:
    - [count = 0]: it fails with [NoMessageFound], whose text has the hash
      of the transaction, whatever the index;
    - an index at or above [count]: it fails with [IndexOutOfRange], whose
      text has the index and [count];
    - no index and [count > 1]: it fails with [AmbiguousMessageCount],
      whose text has [count] and asks for [messageNumberIndex];
    - no index and one message: it returns that message;
    - an index from 0 below [count]: it returns the message at the index.
    The calls made are those of [getL1ToL2Messages]. *)
Theorem getL1ToL2Message_branches `{Collaborators} (this : t)
    (handle : SignerOrProvider) (calls : list Call)
    (messages : list L1ToL2MessageReaderOrWriter) :
  getL1ToL2Messages this handle = (calls, ok messages) →
  (messages = [] →
   ∀ messageIndex,
     getL1ToL2Message this handle messageIndex
     = (calls, throw (NoMessageFound (transactionHash this))))
  ∧ (messages ≠ [] →
     ∀ i, Z.of_nat (length messages) ≤ i →
       getL1ToL2Message this handle (Some i)
       = (calls, throw (IndexOutOfRange (transactionHash this) i
                          (Z.of_nat (length messages)))))
  ∧ ((1 < length messages)%nat →
     getL1ToL2Message this handle None
     = (calls, throw (AmbiguousMessageCount (transactionHash this)
                        (Z.of_nat (length messages)))))
  ∧ (∀ message, messages = [message] →
       getL1ToL2Message this handle None = (calls, ok (Some message)))
  ∧ (∀ i, 0 ≤ i < Z.of_nat (length messages) →
       ∃ message,
         messages !! Z.to_nat i = Some message
         ∧ getL1ToL2Message this handle (Some i) = (calls, ok (Some message))).
Proof.
  intros Hmessages. split_and!.
  - intros -> messageIndex.
    by rewrite (getL1ToL2Message_steps _ _ _ _ _ Hmessages).
  - intros Hsome i Hi.
    rewrite (getL1ToL2Message_steps _ _ _ _ _ Hmessages). cbv zeta.
    destruct (Z.eqb_spec (Z.of_nat (length messages)) 0) as [Hzero|_].
    { destruct messages; [done|]. simpl in Hzero. lia. }
    destruct (Z.geb_spec i (Z.of_nat (length messages))); [done|lia].
  - intros Hmany.
    rewrite (getL1ToL2Message_steps _ _ _ _ _ Hmessages). cbv zeta.
    destruct (Z.eqb_spec (Z.of_nat (length messages)) 0); [lia|].
    destruct (Z.gtb_spec (Z.of_nat (length messages)) 1); [done|lia].
  - intros message ->.
    by rewrite (getL1ToL2Message_steps _ _ _ _ _ Hmessages).
  - intros i [Hlow Hhigh].
    destruct (lookup_lt_is_Some_2 messages (Z.to_nat i)) as [message Hlookup];
      [lia|].
    exists message. split; [done|].
    rewrite (getL1ToL2Message_steps _ _ _ _ _ Hmessages). cbv zeta.
    destruct (Z.eqb_spec (Z.of_nat (length messages)) 0); [lia|].
    destruct (Z.geb_spec i (Z.of_nat (length messages))); [lia|].
    unfold Array_get. destruct (Z.ltb_spec i 0); [lia|]. by rewrite Hlookup.
Qed.

(** C10. With at least one message and a negative index, none of the three
    errors is thrown: the test of the range only asks whether the index is
    at or above the count, the array has no element at a negative index,
    and [getL1ToL2Message] resolves with [undefined]. *)
Theorem getL1ToL2Message_negative_index `{Collaborators} (this : t)
    (handle : SignerOrProvider) (calls : list Call)
    (messages : list L1ToL2MessageReaderOrWriter) (i : Z) :
  getL1ToL2Messages this handle = (calls, ok messages) →
  messages ≠ [] →
  i < 0 →
  getL1ToL2Message this handle (Some i) = (calls, ok None).
Proof.
  intros Hmessages Hsome Hi.
  rewrite (getL1ToL2Message_steps _ _ _ _ _ Hmessages). cbv zeta.
  destruct (Z.eqb_spec (Z.of_nat (length messages)) 0) as [Hzero|_].
  { destruct messages; [done|]. simpl in Hzero. lia. }
  destruct (Z.geb_spec i (Z.of_nat (length messages))); [lia|].
  unfold Array_get. by destruct (Z.ltb_spec i 0); [|lia].
Qed.

Lemma getL1ToL2Message_branches_witness :
  getL1ToL2Messages (H := Sample.collaborators) Sample.twoMessages Sample.signer
  = ([Call_getNetwork], ok [Sample.messageFor 9; Sample.messageFor 5])
  ∧ getL1ToL2Message (H := Sample.collaborators) Sample.twoMessages
      Sample.signer (Some 5)
    = ([Call_getNetwork], throw (IndexOutOfRange Sample.txHash 5 2))
  ∧ getL1ToL2Message (H := Sample.collaborators) Sample.twoMessages
      Sample.signer None
    = ([Call_getNetwork], throw (AmbiguousMessageCount Sample.txHash 2))
  ∧ ∃ message,
      [Sample.messageFor 9; Sample.messageFor 5] !! 1%nat = Some message
      ∧ getL1ToL2Message (H := Sample.collaborators) Sample.twoMessages
          Sample.signer (Some 1)
        = ([Call_getNetwork], ok (Some message)).
Proof.
  pose proof (getL1ToL2Message_branches (H := Sample.collaborators)
                Sample.twoMessages Sample.signer [Call_getNetwork]
                [Sample.messageFor 9; Sample.messageFor 5] eq_refl)
    as (_ & Hrange & Hmany & _ & Hindex).
  split_and!.
  - reflexivity.
  - apply (Hrange ltac:(discriminate) 5). simpl. lia.
  - apply Hmany. simpl. lia.
  - apply (Hindex 1). simpl. lia.
Defined.

Lemma getL1ToL2Message_negative_index_witness :
  getL1ToL2Messages (H := Sample.collaborators) Sample.twoMessages Sample.signer
  = ([Call_getNetwork], ok [Sample.messageFor 9; Sample.messageFor 5])
  ∧ -1 < 0
  ∧ getL1ToL2Message (H := Sample.collaborators) Sample.twoMessages
      Sample.signer (Some (-1))
    = ([Call_getNetwork], ok None).
Proof.
  split_and!; [reflexivity | lia |].
  apply (getL1ToL2Message_negative_index (H := Sample.collaborators)
           Sample.twoMessages Sample.signer [Call_getNetwork]
           [Sample.messageFor 9; Sample.messageFor 5] (-1));
    [reflexivity | discriminate | lia].
Defined.

(** The cases of the specification's fourth test, on receipts with no
    message, one message and two. *)
Example getL1ToL2Message_none :
  getL1ToL2Message (H := Sample.collaborators) Sample.noMessage Sample.signer None
  = ([Call_getNetwork],
     throw (ArbTsError "No l1 to L2 message found for 0xabc1")).
Proof. reflexivity. Qed.

Example getL1ToL2Message_single :
  getL1ToL2Message (H := Sample.collaborators) Sample.oneMessage Sample.signer None
  = ([Call_getNetwork], ok (Some (Sample.messageFor 9))).
Proof. reflexivity. Qed.

Example getL1ToL2Message_out_of_range :
  getL1ToL2Message (H := Sample.collaborators) Sample.twoMessages Sample.signer
    (Some 5)
  = ([Call_getNetwork],
     throw (ArbTsError
       "Provided message number out of range for 0xabc1; index was 5, but only 2 messages")).
Proof. reflexivity. Qed.

Example getL1ToL2Message_ambiguous :
  getL1ToL2Message (H := Sample.collaborators) Sample.twoMessages Sample.signer
    None
  = ([Call_getNetwork],
     throw (ArbTsError
       "2 L2 messages for 0xabc1; must provide messageNumberIndex (or use (signersAndProviders, l1Txn))")).
Proof. reflexivity. Qed.

(** ** [getDepositEvents] *)

Lemma topic0_is_spec (topic : string) (log : Log) :
  topic0_is topic log = true ↔ topics log !! 0%nat = Some topic.
Proof.
  unfold topic0_is. destruct (topics log !! 0%nat) as [t0|]; [|done].
  rewrite String.eqb_eq. split; congruence.
Qed.

(** C6, as amended. [getDepositEvents] keeps the logs whose first topic is
    the topic of [DepositInitiated], in the order of the logs, and hands
    only those to the decoder: a log with another first topic is left out,
    not decoded. It is synchronous and makes no call to the connectivity
    layer. It returns the decoded arguments of the kept logs when each of
    them decodes; it fails only when a kept log does not decode, and then
    with the very error of the decoder at the first such log: the method
    adds nothing to that error, no index of the log in particular. *)
Theorem getDepositEvents_decodes_matching `{Collaborators} (this : t) :
  List.filter (topic0_is topic_DepositInitiated) (logs this)
    `sublist_of` logs this
  ∧ (∀ log,
       log ∈ List.filter (topic0_is topic_DepositInitiated) (logs this)
       ↔ log ∈ logs this ∧ topics log !! 0%nat = Some topic_DepositInitiated)
  ∧ (∀ args,
       getDepositEvents this = ok args
       ↔ Forall2 (λ log a, parseLog_args log = ok a)
           (List.filter (topic0_is topic_DepositInitiated) (logs this)) args)
  ∧ (∀ e,
       getDepositEvents this = throw e
       ↔ ∃ good bad rest,
           List.filter (topic0_is topic_DepositInitiated) (logs this)
           = good ++ bad :: rest
           ∧ Forall (λ log, ∃ a, parseLog_args log = ok a) good
           ∧ parseLog_args bad = throw e).
Proof.
  split_and!.
  - apply filter_sublist.
  - intros log. by rewrite filter_elem_of, topic0_is_spec.
  - intros args. apply Array_map_ok.
  - intros e. apply Array_map_throw.
Qed.

(** A deposit among other logs is decoded, and only the deposit. *)
Example getDepositEvents_round_trip :
  getDepositEvents (H := Sample.collaborators) Sample.oneDeposit
  = ok [ {| Sample._from := "0xa11ce"; Sample._to := "0xb0b";
            Sample._sequenceNumber := 9; Sample._amount := 100 |} ].
Proof. reflexivity. Qed.

(** C6, as stated, fails: the error does not tell which log it is about.
    In the first receipt the log that does not decode is the log 0, in the
    second it is the log 1, by its place in the receipt and by its
    [logIndex]; [getDepositEvents] fails with the same error on both, the
    one of the decoder, so that no index can be read off it. *)
Lemma getDepositEvents_error_has_no_index :
  logs Sample.badFirst !! 0%nat = Some Sample.badDeposit
  ∧ logIndex Sample.badDeposit = 0
  ∧ logs Sample.badSecond !! 1%nat = Some Sample.badDepositAt1
  ∧ logIndex Sample.badDepositAt1 = 1
  ∧ getDepositEvents (H := Sample.collaborators) Sample.badFirst
    = throw (AbiError "data out-of-bounds")
  ∧ getDepositEvents (H := Sample.collaborators) Sample.badSecond
    = throw (AbiError "data out-of-bounds")
  ∧ ¬ ∃ index_of : Error → Z,
        (∀ e, getDepositEvents (H := Sample.collaborators) Sample.badFirst
              = throw e → index_of e = 0)
        ∧ (∀ e, getDepositEvents (H := Sample.collaborators) Sample.badSecond
                = throw e → index_of e = 1).
Proof.
  split_and!; try reflexivity.
  intros (index_of & Hfirst & Hsecond).
  specialize (Hfirst (AbiError "data out-of-bounds") eq_refl).
  specialize (Hsecond (AbiError "data out-of-bounds") eq_refl).
  rewrite Hfirst in Hsecond. discriminate.
Qed.

(** ** [looksLikeEthDeposit] *)

Lemma prefix_spec (p s : string) :
  String.prefix p s = true ↔ ∃ rest, s = p +:+ rest.
Proof.
  revert s. induction p as [|a p IH]; intros s.
  - split; [exists s; by destruct s | by destruct s].
  - destruct s as [|b s]; simpl.
    + split; [done | by intros [? ?]].
    + destruct (ascii_dec a b) as [->|Hne].
      * rewrite IH. split; intros [rest Hrest]; exists rest;
          change (String b p +:+ rest) with (String b (p +:+ rest)) in *;
          congruence.
      * split; [done|]. intros [rest Hrest].
        change (String a p +:+ rest) with (String a (p +:+ rest)) in Hrest.
        congruence.
Qed.

Lemma prefix_empty (s : string) : String.prefix "" s = true.
Proof. by destruct s. Qed.

Section selector_bytes.

Lemma prefix_byte_0f b p s :
  String.prefix (String "0" (String "f" p)) (hexlify_byte b s)
  = Byte.eqb x0f b && String.prefix p s.
Proof. destruct b; reflexivity. Qed.

Lemma prefix_byte_4d b p s :
  String.prefix (String "4" (String "d" p)) (hexlify_byte b s)
  = Byte.eqb x4d b && String.prefix p s.
Proof. destruct b; reflexivity. Qed.

Lemma prefix_byte_14 b p s :
  String.prefix (String "1" (String "4" p)) (hexlify_byte b s)
  = Byte.eqb x14 b && String.prefix p s.
Proof. destruct b; reflexivity. Qed.

Lemma prefix_byte_e9 b p s :
  String.prefix (String "e" (String "9" p)) (hexlify_byte b s)
  = Byte.eqb xe9 b && String.prefix p s.
Proof. destruct b; reflexivity. Qed.

(** On call data written by the connectivity layer, the test on the
    string is the test on the first four bytes. *)
Lemma startsWith_selector_bytes (bytes : list byte) :
  String.prefix "0x0f4d14e9" (hexlify bytes) = true
  ↔ take 4 bytes = depositEth_selector.
Proof.
  unfold hexlify, depositEth_selector.
  change (String.prefix "0x0f4d14e9" ("0x" +:+ foldr hexlify_byte "" bytes))
    with (String.prefix "0f4d14e9" (foldr hexlify_byte "" bytes)).
  destruct bytes as [|b1 [|b2 [|b3 [|b4 rest]]]]; simpl foldr; simpl take.
  - simpl. split; discriminate.
  - rewrite prefix_byte_0f. simpl. rewrite andb_false_r.
    split; discriminate.
  - rewrite prefix_byte_0f, prefix_byte_4d. simpl.
    rewrite !andb_false_r. split; discriminate.
  - rewrite prefix_byte_0f, prefix_byte_4d, prefix_byte_14. simpl.
    rewrite !andb_false_r. split; discriminate.
  - rewrite prefix_byte_0f, prefix_byte_4d, prefix_byte_14, prefix_byte_e9,
      prefix_empty, andb_true_r, !andb_true_iff.
    split.
    + intros (H1 & H2 & H3 & H4).
      apply Byte.byte_dec_bl in H1, H2, H3, H4. by subst.
    + intros [= -> -> -> ->]. repeat split.
Qed.

End selector_bytes.

(** C7. Let the handle give a provider and the provider answer
    [getTransaction] for the hash of the receipt with a transaction. Then
    [looksLikeEthDeposit] makes that one call, and resolves with [true]
    exactly when the call data of the transaction starts with
    [0x0f4d14e9]. *)
Theorem looksLikeEthDeposit_selector `{Collaborators} (this : t)
    (handle : SignerOrProvider) (provider : Provider)
    (txRes : TransactionResponse) :
  getProviderOrThrow handle = ok provider →
  getTransaction provider (transactionHash this) = ok (Some txRes) →
  ∃ answer : bool,
    looksLikeEthDeposit this handle
    = ([Call_getTransaction (transactionHash this)], ok answer)
    ∧ (answer = true ↔ ∃ rest, tx_data txRes = "0x0f4d14e9" +:+ rest).
Proof.
  intros Hprovider Htx.
  exists (String.prefix "0x0f4d14e9" (tx_data txRes)).
  split; [|apply prefix_spec].
  unfold looksLikeEthDeposit, Provider_getTransaction.
  rewrite Hprovider. run_io. by rewrite Htx.
Qed.

Lemma looksLikeEthDeposit_selector_witness :
  getProviderOrThrow (Collaborators := Sample.collaborators) Sample.signer
  = ok Sample.arbitrum
  ∧ ∃ answer : bool,
      looksLikeEthDeposit (H := Sample.collaborators) Sample.noMessage
        Sample.signer
      = ([Call_getTransaction Sample.txHash], ok answer)
      ∧ (answer = true
         ↔ ∃ rest, "0x0f4d14e90000000000000001" = "0x0f4d14e9" +:+ rest).
Proof.
  split; [reflexivity|].
  apply (looksLikeEthDeposit_selector (H := Sample.collaborators)
           Sample.noMessage Sample.signer Sample.arbitrum
           {| hash := Sample.txHash; tx_data := "0x0f4d14e90000000000000001" |});
    reflexivity.
Defined.

(** Without a provider, or when the call is rejected, the method fails
    with that error. *)
Lemma looksLikeEthDeposit_no_provider `{Collaborators} (this : t)
    (handle : SignerOrProvider) e :
  getProviderOrThrow handle = throw e →
  looksLikeEthDeposit this handle = ([], throw e).
Proof. unfold looksLikeEthDeposit. intros ->. by run_io. Qed.

(** For a hash that the chain does not know the call settles as [null],
    and reading [data] off it throws. *)
Lemma looksLikeEthDeposit_unknown `{Collaborators} (this : t)
    (handle : SignerOrProvider) provider :
  getProviderOrThrow handle = ok provider →
  getTransaction provider (transactionHash this) = ok None →
  looksLikeEthDeposit this handle
  = ([Call_getTransaction (transactionHash this)], throw TypeError).
Proof.
  unfold looksLikeEthDeposit, Provider_getTransaction. intros -> Htx.
  run_io. by rewrite Htx.
Qed.

Lemma looksLikeEthDeposit_rejected `{Collaborators} (this : t)
    (handle : SignerOrProvider) provider e :
  getProviderOrThrow handle = ok provider →
  getTransaction provider (transactionHash this) = throw e →
  looksLikeEthDeposit this handle
  = ([Call_getTransaction (transactionHash this)], throw e).
Proof.
  unfold looksLikeEthDeposit, Provider_getTransaction. intros -> Htx.
  run_io. by rewrite Htx.
Qed.

(** ** [monkeyPatchWait] *)

(** What the patched [wait] does with what the original [wait] did: the
    same calls; an error is passed on; a receipt is wrapped. *)
Lemma patched_wait_outcome (original : IO Receipt) :
  (result ← original; mret (OfClass (new (fields result))))
  = (trace original,
     match outcome original with
     | inl e => inl e
     | inr result => inr (OfClass (new (fields result)))
     end).
Proof.
  destruct original as [calls [e|result]]; run_io; [done|].
  by rewrite (right_id_L [] (++)).
Qed.

(** C9. After [monkeyPatchWait] the object it was given, at the same
    reference, has a [wait] that takes the same argument, makes the calls
    that the original [wait] makes with that argument, fails when and as the
    original fails, and otherwise resolves with an [L1TransactionReceipt]
    built by the constructor from the receipt of the original. The reference
    is returned, the other fields and the other objects are as before. *)
Theorem monkeyPatchWait_wraps_wait (heap : gmap ref ContractTransaction)
    (contractTransaction : ref) (object : ContractTransaction) :
  heap !! contractTransaction = Some object →
  ∃ patched,
    monkeyPatchWait contractTransaction heap
    = (<[contractTransaction := patched]> heap, contractTransaction)
    ∧ (monkeyPatchWait contractTransaction heap).1 !! contractTransaction
      = Some patched
    ∧ ct_hash patched = ct_hash object
    ∧ (∀ confirmations,
         trace (wait patched confirmations)
         = trace (wait object confirmations)
         ∧ (∀ e, outcome (wait object confirmations) = throw e →
                 outcome (wait patched confirmations) = throw e)
         ∧ (∀ result, outcome (wait object confirmations) = ok result →
                 outcome (wait patched confirmations)
                 = ok (OfClass (new (fields result)))))
    ∧ (∀ other, other ≠ contractTransaction →
         (monkeyPatchWait contractTransaction heap).1 !! other = heap !! other).
Proof.
  intros Hobject. unfold monkeyPatchWait. rewrite Hobject.
  eexists. split_and!.
  - reflexivity.
  - apply lookup_insert_eq.
  - reflexivity.
  - intros confirmations. cbn [wait]. rewrite patched_wait_outcome.
    split_and!; [done| |]; cbn [outcome snd]; by intros ? ->.
  - intros other Hother. cbn [fst]. by rewrite lookup_insert_ne.
Qed.

Lemma monkeyPatchWait_wraps_wait_witness :
  ({[ 1%positive := Sample.pending ]} : gmap ref ContractTransaction)
    !! 1%positive = Some Sample.pending
  ∧ ∃ patched,
      (monkeyPatchWait 1%positive {[ 1%positive := Sample.pending ]}).1
        !! 1%positive = Some patched
      ∧ wait patched (Some 2)
        = ([Call_wait (Some 2)],
           ok (OfClass (new (Sample.raw [Sample.message9])))).
Proof.
  assert (({[ 1%positive := Sample.pending ]} : gmap ref ContractTransaction)
            !! 1%positive = Some Sample.pending) as Hpending
    by reflexivity.
  split; [exact Hpending|].
  destruct (monkeyPatchWait_wraps_wait {[ 1%positive := Sample.pending ]}
              1%positive Sample.pending Hpending)
    as (patched & _ & Hlookup & _ & Hwait & _).
  exists patched. split; [exact Hlookup|].
  destruct (Hwait (Some 2)) as (Htrace & _ & Hok).
  specialize (Hok _ eq_refl).
  destruct (wait patched (Some 2)) as [calls result].
  simpl in Htrace, Hok. by rewrite Htrace, Hok.
Defined.

(** Patching twice wraps a receipt that is already of the class; its
    fields do not change. *)
Lemma monkeyPatchWait_twice (original : IO Receipt) :
  (result ← (result ← original; mret (OfClass (new (fields result))));
   mret (OfClass (new (fields result))))
  = (result ← original; mret (OfClass (new (fields result)))).
Proof.
  destruct original as [calls [e|result]]; run_io.
  - done.
  - by rewrite !(right_id_L [] (++)).
Qed.

(** ** The constructor and the objects of the heap *)

Section Objects_facts.
Context `{Collaborators}.
Implicit Types (h g : gmap ref Objects.cell) (r : ref).

Lemma fresh_lookup h : h !! fresh (dom h) = None.
Proof. apply not_elem_of_dom, is_fresh. Qed.

Lemma allocation_subseteq h (c : Objects.cell) :
  h ⊆ <[fresh (dom h) := c]> h.
Proof. apply insert_subseteq, fresh_lookup. Qed.

Lemma construct_steps h tx (f : Objects.fields) :
  h !! tx = Some (Objects.Object f) →
  Objects.construct h tx
  = Some (<[fresh (dom h) := Objects.Object f]> h, fresh (dom h)).
Proof. unfold Objects.construct. intros ->. by destruct f. Qed.

Lemma view_steps h r (f : Objects.fields) (elements : list Log) :
  h !! r = Some (Objects.Object f) →
  h !! Objects.logs f = Some (Objects.Array elements) →
  ∃ v, Objects.view h r = Some v
       ∧ TransactionReceipt.logs v = elements
       ∧ TransactionReceipt.transactionHash v = Objects.transactionHash f.
Proof.
  intros Hr Hlogs. unfold Objects.view. rewrite Hr, Hlogs.
  by eexists.
Qed.

Lemma view_inv h r (v : TransactionReceipt.t) :
  Objects.view h r = Some v →
  ∃ f, h !! r = Some (Objects.Object f)
       ∧ h !! Objects.logs f = Some (Objects.Array (TransactionReceipt.logs v))
       ∧ TransactionReceipt.transactionHash v = Objects.transactionHash f.
Proof.
  unfold Objects.view. destruct (h !! r) as [[f|?]|] eqn:Hr; [|done..].
  destruct (h !! Objects.logs f) as [[?|elements]|] eqn:Hlogs; [done| |done].
  intros [= <-]. by exists f.
Qed.

(** What an object stands for is the same in every heap that has its two
    cells as they are. *)
Lemma view_weaken h g r (v : TransactionReceipt.t) :
  h ⊆ g → Objects.view h r = Some v → Objects.view g r = Some v.
Proof.
  intros Hsub Hview. unfold Objects.view in *.
  destruct (h !! r) as [[f|?]|] eqn:Hr; [|done..].
  rewrite (lookup_weaken _ _ _ _ Hr Hsub).
  destruct (h !! Objects.logs f) as [[?|elements]|] eqn:Hlogs; [done| |done].
  by rewrite (lookup_weaken _ _ _ _ Hlogs Hsub).
Qed.

(** The two synchronous methods allocate the array that [filter] returns
    and answer as the methods on values do. *)
Lemma Objects_getMessageNumbers_steps h r (v : TransactionReceipt.t) :
  Objects.view h r = Some v →
  Objects.getMessageNumbers h r
  = Some (<[fresh (dom h) :=
              Objects.Array (List.filter isMessageDelivered
                               (TransactionReceipt.logs v))]> h,
          getMessageNumbers (new v)).
Proof.
  intros (f & Hr & Hlogs & _)%view_inv.
  unfold Objects.getMessageNumbers, Objects.Array_filter.
  by rewrite Hr, Hlogs, lookup_insert_eq.
Qed.

Lemma Objects_getDepositEvents_steps h r (v : TransactionReceipt.t) :
  Objects.view h r = Some v →
  Objects.getDepositEvents h r
  = Some (<[fresh (dom h) :=
              Objects.Array (List.filter (topic0_is topic_DepositInitiated)
                               (TransactionReceipt.logs v))]> h,
          getDepositEvents (new v)).
Proof.
  intros (f & Hr & Hlogs & _)%view_inv.
  unfold Objects.getDepositEvents, Objects.Array_filter.
  by rewrite Hr, Hlogs, lookup_insert_eq.
Qed.

Lemma Objects_getL1ToL2Messages_steps h r (v : TransactionReceipt.t)
    (handle : SignerOrProvider) :
  Objects.view h r = Some v →
  ∃ g, Objects.getL1ToL2Messages h r handle
       = Some (g, getL1ToL2Messages (new v) handle)
       ∧ h ⊆ g.
Proof.
  intros Hview. unfold Objects.getL1ToL2Messages.
  rewrite getL1ToL2Messages_steps.
  destruct (getProviderOrThrow handle) as [e|provider]; [by exists h|].
  destruct (getNetwork provider) as [e|network]; [by exists h|].
  rewrite (Objects_getMessageNumbers_steps _ _ _ Hview).
  eexists. split; [|apply allocation_subseteq].
  do 2 f_equal. run_io.
  destruct (getMessageNumbers (new v)) as [e|[|n numbers]]; [done..|].
  simpl. by destruct (Array_map _ _).
Qed.

Lemma Objects_getL1ToL2Message_steps h r (v : TransactionReceipt.t)
    (handle : SignerOrProvider) (messageIndex : option Z) :
  Objects.view h r = Some v →
  ∃ g, Objects.getL1ToL2Message h r handle messageIndex
       = Some (g, getL1ToL2Message (new v) handle messageIndex)
       ∧ h ⊆ g.
Proof.
  intros Hview. unfold Objects.getL1ToL2Message.
  destruct (Objects_getL1ToL2Messages_steps _ _ _ handle Hview)
    as (g & -> & Hsub).
  destruct (view_inv _ _ _ (view_weaken _ _ _ _ Hsub Hview))
    as (f & -> & _ & Hhash).
  exists g. split; [|done]. unfold getL1ToL2Message.
  replace (transactionHash (new v)) with (Objects.transactionHash f); done.
Qed.

Lemma Objects_looksLikeEthDeposit_steps h r (v : TransactionReceipt.t)
    (handle : SignerOrProvider) :
  Objects.view h r = Some v →
  Objects.looksLikeEthDeposit h r handle
  = Some (h, looksLikeEthDeposit (new v) handle).
Proof.
  intros (f & Hr & _ & Hhash)%view_inv.
  unfold Objects.looksLikeEthDeposit, looksLikeEthDeposit. rewrite Hr.
  replace (transactionHash (new v)) with (Objects.transactionHash f); done.
Qed.

End Objects_facts.

(** C8. On the heap, [new L1TransactionReceipt(tx)] for a receipt object
    [tx] with its array of logs always returns, and makes no call. It
    allocates one object and writes nothing that existed. The fields of
    the new object are those of [tx], each of the seventeen, [logs] being
    the reference of the array of [tx] and no copy of it; read as a
    receipt, the object is [tx], and it is the object that the constructor
    on values builds. As long as the heap only grows, the object stands for
    the same receipt, and each method of the class, called on it, only
    makes the heap grow and gives what the method on values gives; so does
    an assignment to a field of [tx]. A write into the array of [tx] is a
    write into the logs of the object. *)
Theorem construct_copies_fields_shares_logs `{Collaborators}
    (h : gmap ref Objects.cell) (tx : ref) (f : Objects.fields)
    (elements : list Log) :
  h !! tx = Some (Objects.Object f) →
  h !! Objects.logs f = Some (Objects.Array elements) →
  ∃ (h' : gmap ref Objects.cell) (this : ref) (v : TransactionReceipt.t),
    Objects.construct h tx = Some (h', this)
    ∧ h !! this = None
    ∧ (∀ r, r ≠ this → h' !! r = h !! r)
    ∧ h' !! this = Some (Objects.Object f)
    ∧ Objects.view h tx = Some v
    ∧ Objects.view h' this = Some (asTransactionReceipt (new v))
    ∧ (∀ g, h' ⊆ g →
         Objects.view g this = Some v
         ∧ (∃ g', Objects.getMessageNumbers g this
                  = Some (g', getMessageNumbers (new v))
                  ∧ g ⊆ g')
         ∧ (∃ g', Objects.getDepositEvents g this
                  = Some (g', getDepositEvents (new v))
                  ∧ g ⊆ g')
         ∧ (∀ handle,
              ∃ g', Objects.getL1ToL2Messages g this handle
                    = Some (g', getL1ToL2Messages (new v) handle)
                    ∧ g ⊆ g')
         ∧ (∀ handle messageIndex,
              ∃ g', Objects.getL1ToL2Message g this handle messageIndex
                    = Some (g', getL1ToL2Message (new v) handle messageIndex)
                    ∧ g ⊆ g')
         ∧ (∀ handle,
              Objects.looksLikeEthDeposit g this handle
              = Some (g, looksLikeEthDeposit (new v) handle)))
    ∧ (∀ f', Objects.view (<[tx := Objects.Object f']> h') this = Some v)
    ∧ (∀ log,
         ∃ w, Objects.view (Objects.Array_push h' (Objects.logs f) log) this
              = Some w
              ∧ TransactionReceipt.logs w = elements ++ [log]
              ∧ TransactionReceipt.logs v = elements).
Proof.
  intros Htx Hlogs.
  destruct (view_steps _ _ _ _ Htx Hlogs) as (v & Hv & Helements & _).
  pose proof (fresh_lookup h) as Hfresh.
  set (this := fresh (dom h)) in *.
  assert (this ≠ tx) as Hne by (intros ->; congruence).
  assert (this ≠ Objects.logs f) as Hne' by (intros Heq; congruence).
  assert (Objects.view (<[this := Objects.Object f]> h) this = Some v)
    as Hthis.
  { unfold Objects.view in *.
    rewrite lookup_insert_eq, lookup_insert_ne, Hlogs by done.
    by rewrite Htx, Hlogs in Hv. }
  exists (<[this := Objects.Object f]> h), this, v. split_and!.
  - by apply construct_steps.
  - done.
  - intros r Hr. by rewrite lookup_insert_ne.
  - apply lookup_insert_eq.
  - done.
  - rewrite Hthis. f_equal. by destruct v.
  - intros g Hsub.
    pose proof (view_weaken _ _ _ _ Hsub Hthis) as Hg. split_and!.
    + done.
    + eexists. split; [by apply Objects_getMessageNumbers_steps|].
      apply allocation_subseteq.
    + eexists. split; [by apply Objects_getDepositEvents_steps|].
      apply allocation_subseteq.
    + intros handle. by apply Objects_getL1ToL2Messages_steps.
    + intros handle messageIndex. by apply Objects_getL1ToL2Message_steps.
    + intros handle. by apply Objects_looksLikeEthDeposit_steps.
  - intros f'. unfold Objects.view in *.
    rewrite lookup_insert_ne, lookup_insert_eq by done.
    rewrite !lookup_insert_ne by congruence.
    rewrite Hlogs. by rewrite Htx, Hlogs in Hv.
  - intros log. unfold Objects.Array_push.
    rewrite lookup_insert_ne, Hlogs by done.
    unfold Objects.view.
    rewrite lookup_insert_ne, lookup_insert_eq by done.
    rewrite lookup_insert_eq. by eexists.
Qed.

Lemma construct_copies_fields_shares_logs_witness :
  Sample.objects !! 1%positive = Some (Objects.Object Sample.rawObject)
  ∧ Sample.objects !! 2%positive = Some (Objects.Array [Sample.other])
  ∧ ∃ (h' : gmap ref Objects.cell) (this : ref),
      Objects.construct Sample.objects 1%positive = Some (h', this)
      ∧ Sample.objects !! this = None
      ∧ h' !! this = Some (Objects.Object Sample.rawObject)
      ∧ ∃ g', Objects.getMessageNumbers (H := Sample.collaborators) h' this
              = Some (g', ok [])
              ∧ h' ⊆ g'.
Proof.
  assert (Sample.objects !! 1%positive = Some (Objects.Object Sample.rawObject))
    as Htx by reflexivity.
  assert (Sample.objects !! Objects.logs Sample.rawObject
          = Some (Objects.Array [Sample.other])) as Hlogs by reflexivity.
  split; [exact Htx|]. split; [exact Hlogs|].
  destruct (construct_copies_fields_shares_logs (H := Sample.collaborators)
              Sample.objects 1%positive Sample.rawObject [Sample.other]
              Htx Hlogs)
    as (h' & this & v & Hconstruct & Hfresh & _ & Hthis & Hv & _ & Hmethods
        & _ & _).
  exists h', this. split; [exact Hconstruct|]. split; [exact Hfresh|].
  split; [exact Hthis|].
  destruct (Hmethods h' (reflexivity h')) as (_ & (g' & Hnumbers & Hsub) & _).
  exists g'. split; [|exact Hsub].
  rewrite Hnumbers. f_equal. f_equal.
  injection Hv as <-. reflexivity.
Defined.

(** The array of logs is shared: after the construction from the object at
    1, whose array of logs holds no message log, a message log pushed onto
    that array is a log of the constructed object, and
    [getMessageNumbers] of the constructed object gives its number. *)
Lemma logs_shared_with_argument :
  ∃ (h' : gmap ref Objects.cell) (this : ref),
    Objects.construct Sample.objects 1%positive = Some (h', this)
    ∧ snd <$> Objects.getMessageNumbers (H := Sample.collaborators) h' this
      = Some (ok [])
    ∧ snd <$> Objects.getMessageNumbers (H := Sample.collaborators)
                (Objects.Array_push h' 2%positive Sample.message9) this
      = Some (ok [9]).
Proof.
  eexists _, _. split; [by vm_compute|]. split; by vm_compute.
Qed.

(** * Further properties

    What the methods do beyond the statements above: where they fail and
    with what, what they call, how they compose. *)

(** ** Reading numbers *)

Lemma BigNumber_from_throw (value : option string) (e : Error) :
  BigNumber_from value = throw e → e = BigNumberError value.
Proof.
  unfold BigNumber_from, ok, throw. destruct value as [s|]; [|by intros [= <-]].
  destruct (parse_hex_signed s); [done|].
  destruct (NilZero.int_of_string s); [done|]. by intros [= <-].
Qed.

Lemma hex_digit_bound (c : ascii) (d : Z) : hex_digit c = Some d → 0 ≤ d < 16.
Proof.
  unfold hex_digit.
  repeat match goal with
         | |- context [if ?b then _ else _] => destruct b eqn:?
         end; intros [= <-]; lia.
Qed.

Lemma hex_value_bound (s : string) (acc : Z) :
  string_forall is_hex_char s = true →
  ∃ v, hex_value acc s = Some (acc * 16 ^ Z.of_nat (String.length s) + v)
       ∧ 0 ≤ v < 16 ^ Z.of_nat (String.length s).
Proof.
  revert acc. induction s as [|c s IH]; intros acc Hall.
  - exists 0. simpl. split; [f_equal; lia | lia].
  - simpl in Hall. apply andb_true_iff in Hall as [Hc Hs].
    unfold is_hex_char in Hc. simpl hex_value.
    destruct (hex_digit c) as [d|] eqn:Hd; [|done].
    apply hex_digit_bound in Hd.
    destruct (IH (16 * acc + d) Hs) as (v & Hv & Hbound).
    exists (d * 16 ^ Z.of_nat (String.length s) + v).
    rewrite Hv. cbn [String.length]. rewrite Nat2Z.inj_succ, Z.pow_succ_r by lia.
    split; [f_equal; lia | nia].
Qed.

(** A well-formed 32-byte value is read as a number below 2^256. *)
Lemma BigNumber_from_bytes32 (s : string) :
  is_bytes32 s = true → ∃ n, BigNumber_from (Some s) = ok n ∧ 0 ≤ n < 2 ^ 256.
Proof.
  unfold is_bytes32.
  destruct s as [|c0 [|c1 digits]];
    [done | by destruct c0 as [[] [] [] [] [] [] [] []] |].
  destruct (Ascii.eqb_spec c0 "0") as [->|];
    [|by destruct c0 as [[] [] [] [] [] [] [] []]].
  destruct (Ascii.eqb_spec c1 "x") as [->|];
    [|by destruct c1 as [[] [] [] [] [] [] [] []]].
  intros [Hlen Hall]%andb_true_iff. apply Nat.eqb_eq in Hlen.
  destruct (hex_value_bound digits 0 Hall) as (v & Hv & Hbound).
  rewrite Hlen in Hv, Hbound. exists v. split.
  - unfold BigNumber_from, parse_hex_signed, parse_hex.
    destruct digits as [|c digits]; [done|]. by rewrite Hv.
  - change (Z.of_nat 64) with 64 in Hbound.
    change (16 ^ 64) with (2 ^ 256) in Hbound. exact Hbound.
Qed.

Lemma Array_map_app {A B} (f : A → Result B) (l l' : list A) :
  Array_map f (l ++ l') =
  match Array_map f l with
  | inl e => inl e
  | inr ys =>
      match Array_map f l' with
      | inl e => inl e
      | inr ys' => inr (ys ++ ys')
      end
  end.
Proof.
  induction l as [|x l IH]; simpl.
  - by destruct (Array_map f l').
  - destruct (f x) as [e|y]; [done|]. rewrite IH.
    destruct (Array_map f l) as [e|ys]; [done|].
    by destruct (Array_map f l').
Qed.

(** ** More on [getMessageNumbers] *)

(** X1. A message log without a second topic makes [getMessageNumbers]
    throw. When the message logs before it carry a number each, the method
    throws the error of [BigNumber.from] for [undefined], whatever the logs
    after it are. *)
Theorem getMessageNumbers_missing_topic `{Collaborators} (this : t)
    (good rest : list Log) (bad : Log) :
  List.filter isMessageDelivered (logs this) = good ++ bad :: rest →
  Forall (λ log, ∃ n, decodes log n) good →
  topics bad !! 1%nat = None →
  getMessageNumbers this = throw (BigNumberError None).
Proof.
  intros Hlogs Hgood Hbad. apply getMessageNumbers_throw.
  exists good, bad, rest. split_and!; [done..|]. by rewrite Hbad.
Qed.

Lemma getMessageNumbers_missing_topic_witness :
  List.filter (isMessageDelivered (H := Sample.collaborators))
    (logs (Sample.receipt [Sample.message9; Sample.bare; Sample.message5]))
  = [Sample.message9] ++ Sample.bare :: [Sample.message5]
  ∧ getMessageNumbers (H := Sample.collaborators)
      (Sample.receipt [Sample.message9; Sample.bare; Sample.message5])
    = throw (BigNumberError None).
Proof.
  split; [reflexivity|].
  apply (getMessageNumbers_missing_topic (H := Sample.collaborators)
           (Sample.receipt [Sample.message9; Sample.bare; Sample.message5])
           [Sample.message9] [Sample.message5] Sample.bare).
  - reflexivity.
  - repeat constructor. by exists 9.
  - reflexivity.
Defined.

(** X2. The numbers of a receipt whose logs are those of a first receipt
    followed by those of a second are the numbers of the first followed by
    the numbers of the second; a failure of the first comes before a
    failure of the second. *)
Theorem getMessageNumbers_concat `{Collaborators} (this first second : t) :
  logs this = logs first ++ logs second →
  getMessageNumbers this =
  match getMessageNumbers first with
  | inl e => inl e
  | inr numbers =>
      match getMessageNumbers second with
      | inl e => inl e
      | inr numbers' => inr (numbers ++ numbers')
      end
  end.
Proof.
  unfold getMessageNumbers. intros ->.
  by rewrite List.filter_app, Array_map_app.
Qed.

Lemma getMessageNumbers_concat_witness :
  logs Sample.twoMessages
  = logs (Sample.receipt [Sample.other; Sample.message9])
    ++ logs (Sample.receipt [Sample.other; Sample.message5])
  ∧ getMessageNumbers (H := Sample.collaborators) Sample.twoMessages
    = ok ([9] ++ [5]).
Proof.
  split; [reflexivity|].
  apply (getMessageNumbers_concat (H := Sample.collaborators)
           Sample.twoMessages
           (Sample.receipt [Sample.other; Sample.message9])
           (Sample.receipt [Sample.other; Sample.message5])).
  reflexivity.
Defined.

Lemma getL1ToL2Messages_same_numbers `{Collaborators} (this this' : t)
    (handle : SignerOrProvider) :
  getMessageNumbers this = getMessageNumbers this' →
  getL1ToL2Messages this handle = getL1ToL2Messages this' handle.
Proof. intros Heq. by rewrite !getL1ToL2Messages_steps, Heq. Qed.

(** X3. A log whose first topic is neither the topic of
    [InboxMessageDelivered] nor that of [InboxMessageDeliveredFromOrigin]
    can be put anywhere among the logs of a receipt: the numbers, the
    messages and the failures of the receipt stay the same. *)
Theorem unrelated_log_changes_nothing `{Collaborators} (this this' : t)
    (before after : list Log) (other : Log) :
  logs this = before ++ after →
  logs this' = before ++ other :: after →
  isMessageDelivered other = false →
  getMessageNumbers this' = getMessageNumbers this
  ∧ ∀ handle, getL1ToL2Messages this' handle = getL1ToL2Messages this handle.
Proof.
  intros Hlogs Hlogs' Hother.
  assert (getMessageNumbers this' = getMessageNumbers this) as Hsame.
  { unfold getMessageNumbers. rewrite Hlogs, Hlogs', !List.filter_app. simpl.
    by rewrite Hother. }
  split; [done|]. intros handle. by apply getL1ToL2Messages_same_numbers.
Qed.

Lemma unrelated_log_changes_nothing_witness :
  isMessageDelivered (H := Sample.collaborators) Sample.deposit = false
  ∧ getMessageNumbers (H := Sample.collaborators)
      (Sample.receipt [Sample.message9; Sample.deposit; Sample.message5])
    = getMessageNumbers (H := Sample.collaborators)
        (Sample.receipt [Sample.message9; Sample.message5]).
Proof.
  split; [reflexivity|].
  apply (unrelated_log_changes_nothing (H := Sample.collaborators)
           (Sample.receipt [Sample.message9; Sample.message5])
           (Sample.receipt [Sample.message9; Sample.deposit; Sample.message5])
           [Sample.message9] [Sample.message5] Sample.deposit);
    reflexivity.
Defined.

(** X4. When the second topic of every message log is a 32-byte value as
    the connectivity layer writes it ([0x] and 64 hexadecimal digits),
    [getMessageNumbers] does not throw, returns one number for each message
    log, and every number is at least 0 and below 2^256. *)
Theorem getMessageNumbers_of_bytes32_topics `{Collaborators} (this : t) :
  Forall (λ log, ∃ topic, topics log !! 1%nat = Some topic
                          ∧ is_bytes32 topic = true)
    (List.filter isMessageDelivered (logs this)) →
  ∃ numbers,
    getMessageNumbers this = ok numbers
    ∧ length numbers = length (List.filter isMessageDelivered (logs this))
    ∧ Forall (λ n, 0 ≤ n < 2 ^ 256) numbers.
Proof.
  unfold getMessageNumbers.
  induction (List.filter isMessageDelivered (logs this)) as [|log l IH];
    intros Hall.
  - by exists [].
  - inversion Hall as [|?? (topic & Htopic & Hshape) Hl]; subst.
    destruct (BigNumber_from_bytes32 topic Hshape) as (n & Hn & Hbound).
    destruct (IH Hl) as (numbers & Hnumbers & Hlength & Hbounds).
    exists (n :: numbers). simpl. rewrite Htopic, Hn. unfold ok in *.
    rewrite Hnumbers. split_and!; [done|by rewrite <- Hlength|by constructor].
Qed.

Lemma getMessageNumbers_of_bytes32_topics_witness :
  Forall (λ log, ∃ topic, topics log !! 1%nat = Some topic
                          ∧ is_bytes32 topic = true)
    (List.filter (isMessageDelivered (H := Sample.collaborators))
       (logs Sample.twoMessages))
  ∧ ∃ numbers,
      getMessageNumbers (H := Sample.collaborators) Sample.twoMessages
      = ok numbers
      ∧ length numbers = 2%nat
      ∧ Forall (λ n, 0 ≤ n < 2 ^ 256) numbers.
Proof.
  assert (Forall (λ log, ∃ topic, topics log !! 1%nat = Some topic
                                  ∧ is_bytes32 topic = true)
            (List.filter (isMessageDelivered (H := Sample.collaborators))
               (logs Sample.twoMessages))) as Hall.
  { simpl. repeat constructor; eexists; split; reflexivity. }
  split; [exact Hall|].
  exact (getMessageNumbers_of_bytes32_topics (H := Sample.collaborators)
           Sample.twoMessages Hall).
Defined.

(** ** More on [getL1ToL2Messages] *)

(** X5. Whatever the receipt, [getL1ToL2Messages] makes no call when the
    handle has no provider and otherwise the single call [getNetwork]; it
    never fetches a transaction and never waits. *)
Theorem getL1ToL2Messages_calls `{Collaborators} (this : t)
    (handle : SignerOrProvider) :
  trace (getL1ToL2Messages this handle) =
  match getProviderOrThrow handle with
  | inl _ => []
  | inr _ => [Call_getNetwork]
  end.
Proof.
  rewrite getL1ToL2Messages_steps.
  destruct (getProviderOrThrow handle) as [e|provider]; [done|].
  destruct (getNetwork provider) as [e|network]; [done|].
  by destruct (getMessageNumbers this) as [e|[|mn mns]].
Qed.

(** X6. [getL1ToL2Messages] fails only in these places: the handle has no
    provider; [getNetwork] is rejected; [getMessageNumbers] throws; or,
    inside the map and so with a number at hand, either [BigNumber.from]
    refuses the chain id as it is printed, which does not happen to a safe
    integer, or [calculateRetryableCreationId] throws for one of the
    numbers and the chain id read back from its string, which is the chain
    id when that is a safe integer. The error is the one thrown there. *)
Theorem getL1ToL2Messages_failure_sources `{Collaborators} (this : t)
    (handle : SignerOrProvider) (e : Error) :
  outcome (getL1ToL2Messages this handle) = throw e →
  getProviderOrThrow handle = throw e
  ∨ (∃ provider,
       getProviderOrThrow handle = ok provider
       ∧ getNetwork provider = throw e)
  ∨ (∃ provider network,
       getProviderOrThrow handle = ok provider
       ∧ getNetwork provider = ok network
       ∧ getMessageNumbers this = throw e)
  ∨ (∃ provider network numbers,
       getProviderOrThrow handle = ok provider
       ∧ getNetwork provider = ok network
       ∧ getMessageNumbers this = ok numbers
       ∧ numbers ≠ []
       ∧ ((¬ isSafeInteger (chainId network)
           ∧ ∃ printed, e = BigNumberError (Some printed))
          ∨ (∃ chain mn,
               (isSafeInteger (chainId network) → chain = chainId network)
               ∧ mn ∈ numbers
               ∧ calculateRetryableCreationId chain mn = throw e))).
Proof.
  destruct (getProviderOrThrow handle) as [e'|provider] eqn:Hprovider.
  { rewrite (getL1ToL2Messages_no_provider _ _ _ Hprovider).
    intros [= ->]. by left. }
  destruct (getNetwork provider) as [e'|network] eqn:Hnetwork.
  { rewrite (getL1ToL2Messages_no_network _ _ _ _ Hprovider Hnetwork).
    intros [= ->]. right. left. by exists provider. }
  rewrite (getL1ToL2Messages_as_map _ _ _ _ Hprovider Hnetwork).
  destruct (getMessageNumbers this) as [e'|numbers] eqn:Hnumbers.
  { intros [= ->]. right. right. left. by exists provider, network. }
  cbn [outcome snd]. intros Hmap. right. right. right.
  exists provider, network, numbers.
  apply Array_map_throw in Hmap
    as (good & mn & rest & -> & _ & Hmn).
  split_and!; [done..|by destruct good|].
  destruct (Z.lt_ge_cases (Z.abs (chainId network)) (10 ^ 21)) as [Hplain|Hlarge].
  - right. exists (chainId network), mn. split_and!.
    + done.
    + set_solver.
    + rewrite messageOfNumber_plain in Hmn by done.
      destruct (calculateRetryableCreationId (chainId network) mn)
        as [e'|id]; [|discriminate].
      unfold throw in *. congruence.
  - left. split; [unfold isSafeInteger; lia|].
    rewrite messageOfNumber_exponent in Hmn by done.
    exists (Number_toString (chainId network)). by injection Hmn.
Qed.

Lemma getL1ToL2Messages_failure_sources_witness :
  outcome (getL1ToL2Messages (H := Sample.collaborators) Sample.bareMessage
             Sample.signer)
  = throw (BigNumberError None)
  ∧ getMessageNumbers (H := Sample.collaborators) Sample.bareMessage
    = throw (BigNumberError None).
Proof.
  split; [reflexivity|].
  destruct (getL1ToL2Messages_failure_sources (H := Sample.collaborators)
              Sample.bareMessage Sample.signer (BigNumberError None) eq_refl)
    as [Hprovider
       | [(provider & _ & Hnetwork)
         | [(provider & network & _ & _ & Hnumbers)
           | (provider & network & numbers & _ & _ & Hnumbers & _)]]].
  - discriminate Hprovider.
  - reflexivity.
  - exact Hnumbers.
  - discriminate Hnumbers.
Defined.

(** X7. When the handle gives a chain id that is a safe integer, every
    message log carries a number and [calculateRetryableCreationId] gives
    an identifier for the chain id and each of these numbers,
    [getL1ToL2Messages] returns one message for each message log of the
    receipt, in the order of the logs: the message built from the handle,
    that identifier and the number of the log. *)
Theorem getL1ToL2Messages_one_per_log `{Collaborators} (this : t)
    (handle : SignerOrProvider) (provider : Provider) (network : Network) :
  getProviderOrThrow handle = ok provider →
  getNetwork provider = ok network →
  isSafeInteger (chainId network) →
  Forall (λ log, ∃ n id,
            decodes log n
            ∧ calculateRetryableCreationId (chainId network) n = ok id)
    (List.filter isMessageDelivered (logs this)) →
  ∃ messages,
    getL1ToL2Messages this handle = ([Call_getNetwork], ok messages)
    ∧ Forall2
        (λ log message, ∃ n id,
           decodes log n
           ∧ calculateRetryableCreationId (chainId network) n = ok id
           ∧ message = fromRetryableCreationId handle id n)
        (List.filter isMessageDelivered (logs this)) messages.
Proof.
  intros Hprovider Hnetwork Hsafe%isSafeInteger_plain Hall.
  rewrite (getL1ToL2Messages_as_map _ _ _ _ Hprovider Hnetwork).
  unfold getMessageNumbers.
  induction Hall as [|log l (n & id & Hn & Hid) _ (messages & Hmap & IH)].
  - by exists [].
  - exists (fromRetryableCreationId handle id n :: messages). split.
    + simpl. unfold decodes in Hn. rewrite Hn. unfold ok in *.
      destruct (Array_map _ l) as [e|numbers]; [by injection Hmap|].
      injection Hmap as Hmap. f_equal. simpl.
      rewrite (messageOfNumber_ok _ _ _ _ Hsafe Hid). unfold ok.
      by rewrite Hmap.
    + constructor; [by exists n, id|done].
Qed.

Lemma getL1ToL2Messages_one_per_log_witness :
  isSafeInteger 42161
  ∧ Forall (λ log, ∃ n id,
              decodes log n
              ∧ calculateRetryableCreationId
                  (Collaborators := Sample.collaborators) 42161 n = ok id)
      (List.filter (isMessageDelivered (H := Sample.collaborators))
         (logs Sample.twoMessages))
  ∧ ∃ messages,
      getL1ToL2Messages (H := Sample.collaborators) Sample.twoMessages
        Sample.signer
      = ([Call_getNetwork], ok messages)
      ∧ length messages = 2%nat.
Proof.
  assert (isSafeInteger 42161) as Hsafe by (unfold isSafeInteger; lia).
  assert (Forall (λ log, ∃ n id,
                    decodes log n
                    ∧ calculateRetryableCreationId
                        (Collaborators := Sample.collaborators) 42161 n = ok id)
            (List.filter (isMessageDelivered (H := Sample.collaborators))
               (logs Sample.twoMessages))) as Hall.
  { simpl. repeat constructor; eexists _, _; split; reflexivity. }
  split; [exact Hsafe|]. split; [exact Hall|].
  destruct (getL1ToL2Messages_one_per_log (H := Sample.collaborators)
              Sample.twoMessages Sample.signer Sample.arbitrum
              {| name := "arbitrum"; chainId := 42161 |} eq_refl eq_refl
              Hsafe Hall)
    as (messages & Hmessages & Hforall).
  exists messages. split; [exact Hmessages|].
  symmetry. exact (Forall2_length _ _ _ Hforall).
Defined.

(** ** More on [getL1ToL2Message] *)

(** X8. [getL1ToL2Message] makes the calls of [getL1ToL2Messages] and no
    other, whatever the index and whether it fails or not; when
    [getL1ToL2Messages] fails, it fails with the same error. *)
Theorem getL1ToL2Message_calls `{Collaborators} (this : t)
    (handle : SignerOrProvider) (messageIndex : option Z) :
  trace (getL1ToL2Message this handle messageIndex)
  = trace (getL1ToL2Messages this handle)
  ∧ ∀ e, outcome (getL1ToL2Messages this handle) = throw e →
         outcome (getL1ToL2Message this handle messageIndex) = throw e.
Proof.
  destruct (getL1ToL2Messages this handle) as [calls [e|messages]] eqn:Hall.
  - rewrite (getL1ToL2Message_propagates _ _ _ _ _ Hall).
    split; [done|]. by intros e' [= ->].
  - rewrite (getL1ToL2Message_steps _ _ _ _ _ Hall). split; [done|].
    intros e Houtcome. discriminate Houtcome.
Qed.

(** X9. Once [getL1ToL2Messages] has resolved, [getL1ToL2Message] resolves
    (with a message or with [undefined]) exactly when there is a message
    and either no index is given and there is one message only, or the
    index given is below the count. *)
Theorem getL1ToL2Message_resolves_iff `{Collaborators} (this : t)
    (handle : SignerOrProvider) (calls : list Call)
    (messages : list L1ToL2MessageReaderOrWriter) (messageIndex : option Z) :
  getL1ToL2Messages this handle = (calls, ok messages) →
  (∃ result,
     outcome (getL1ToL2Message this handle messageIndex) = ok result)
  ↔ messages ≠ []
    ∧ match messageIndex with
      | None => length messages = 1%nat
      | Some i => i < Z.of_nat (length messages)
      end.
Proof.
  intros Hall. rewrite (getL1ToL2Message_steps _ _ _ _ _ Hall).
  cbv zeta. cbn [outcome snd]. unfold ok, throw.
  destruct (Z.eqb_spec (Z.of_nat (length messages)) 0) as [Hzero|Hsome].
  { split; [by intros [? ?]|]. intros [Hne _]. by destruct messages. }
  assert (messages ≠ []) as Hne by (intros ->; simpl in Hsome; lia).
  destruct messageIndex as [i|].
  - destruct (Z.geb_spec i (Z.of_nat (length messages))).
    + split; [by intros [? ?] | lia].
    + split; [done | by eexists].
  - destruct (Z.gtb_spec (Z.of_nat (length messages)) 1).
    + split; [by intros [? ?] | lia].
    + split; [intros _; split; [done|lia] | by eexists].
Qed.

Lemma getL1ToL2Message_resolves_iff_witness :
  getL1ToL2Messages (H := Sample.collaborators) Sample.twoMessages Sample.signer
  = ([Call_getNetwork], ok [Sample.messageFor 9; Sample.messageFor 5])
  ∧ ¬ ∃ result,
        outcome (getL1ToL2Message (H := Sample.collaborators)
                   Sample.twoMessages Sample.signer None)
        = ok result.
Proof.
  split; [reflexivity|].
  intros Hresolves.
  apply (getL1ToL2Message_resolves_iff (H := Sample.collaborators)
           Sample.twoMessages Sample.signer [Call_getNetwork]
           [Sample.messageFor 9; Sample.messageFor 5] None eq_refl)
    in Hresolves as [_ Hone].
  discriminate Hone.
Defined.

(** The method at an index that is an integer is the method on integers. *)
Lemma Doubles_getL1ToL2Message_integer `{Collaborators} (this : t)
    (handle : SignerOrProvider) (messageIndex : option Z) :
  Doubles.getL1ToL2Message this handle (Doubles.Integer <$> messageIndex)
  = getL1ToL2Message this handle messageIndex.
Proof. by destruct messageIndex. Qed.

(** X10. Once [getL1ToL2Messages] has resolved, what [getL1ToL2Message]
    resolves with is read off the list, for every number given as the
    index. It is [undefined] exactly when there is a message and the index
    is a negative integer, a fraction below the count, or minus infinity.
    It is a message exactly when that message is the only one and no index
    is given, or it is the element at the index given, an integer from 0
    on, or it is the first element and the index is [NaN]. *)
Theorem getL1ToL2Message_result `{Collaborators} (this : t)
    (handle : SignerOrProvider) (calls : list Call)
    (messages : list L1ToL2MessageReaderOrWriter)
    (messageIndex : option Doubles.Number) :
  getL1ToL2Messages this handle = (calls, ok messages) →
  (outcome (Doubles.getL1ToL2Message this handle messageIndex) = ok None
   ↔ messages ≠ []
     ∧ ((∃ i, messageIndex = Some (Doubles.Integer i) ∧ i < 0)
        ∨ (∃ floor printed,
             messageIndex = Some (Doubles.Fraction floor printed)
             ∧ floor < Z.of_nat (length messages))
        ∨ messageIndex = Some (Doubles.Infinity true)))
  ∧ ∀ message,
      outcome (Doubles.getL1ToL2Message this handle messageIndex)
      = ok (Some message)
      ↔ (messageIndex = None ∧ messages = [message])
        ∨ (∃ i, messageIndex = Some (Doubles.Integer i) ∧ 0 ≤ i
                ∧ messages !! Z.to_nat i = Some message)
        ∨ (messageIndex = Some Doubles.NaN
           ∧ messages !! 0%nat = Some message).
Proof.
  intros Hall. unfold Doubles.getL1ToL2Message. rewrite Hall. run_io.
  destruct (Z.eqb_spec (Z.of_nat (length messages)) 0) as [Hzero|Hsome].
  { assert (messages = []) as -> by (destruct messages; [done|simpl in *; lia]).
    simpl. split; [split; [done | by intros [? _]]|].
    intros message. split; [done|].
    intros [[_ ?] | [(i & _ & _ & Hlookup) | [_ Hlookup]]]; done. }
  assert (messages ≠ []) as Hne by (intros ->; simpl in Hsome; lia).
  destruct messageIndex as [[i|floor printed|[|]|]|]; simpl.
  - (* an integer *)
    destruct (Z.geb_spec i (Z.of_nat (length messages))) as [Hhigh|Hlow];
      simpl.
    + split.
      * split; [done|].
        intros (_ & [(i' & [= <-] & ?) | [(? & ? & ? & _) | ?]]);
          [lia | done..].
      * intros message. split; [done|].
        intros [[? _] | [(i' & [= <-] & ? & Hlookup) | [? _]]]; [done| |done].
        apply lookup_lt_Some in Hlookup. lia.
    + assert (Array_get messages (if i =? 0 then 0 else i)
              = Array_get messages i) as ->
        by (by destruct (Z.eqb_spec i 0) as [->|]).
      unfold Array_get. destruct (Z.ltb_spec i 0) as [Hneg|Hpos].
      * split; [split; [intros _; split; [done|left; by exists i] | done]|].
        intros message. split; [done|].
        intros [[? _] | [(i' & [= <-] & ? & _) | [? _]]]; [done|lia|done].
      * destruct (lookup_lt_is_Some_2 messages (Z.to_nat i)) as [m Hm];
          [lia|]. rewrite Hm. split.
        -- split; [done|].
           intros (_ & [(i' & [= <-] & ?) | [(? & ? & ? & _) | ?]]);
             [lia | done..].
        -- intros message. split.
           ++ intros [= <-]. right. left. by exists i.
           ++ intros [[? _] | [(i' & [= <-] & _ & Hlookup) | [? _]]];
                [done| |done].
              rewrite Hm in Hlookup. by injection Hlookup as ->.
  - (* a fraction *)
    destruct (Z.geb_spec floor (Z.of_nat (length messages))) as [Hhigh|Hlow];
      simpl.
    + split.
      * split; [done|].
        intros (_ & [(? & ? & _) | [(? & ? & [= <- _] & ?) | ?]]);
          [done | lia | done].
      * intros message. split; [done|].
        by intros [[? _] | [(? & ? & _) | [? _]]].
    + split.
      * split; [|done]. intros _. split; [done|]. right. left.
        by exists floor, printed.
      * intros message. split; [done|].
        by intros [[? _] | [(? & ? & _) | [? _]]].
  - (* minus infinity *)
    split.
    + split; [|done]. intros _. split; [done|]. by right; right.
    + intros message. split; [done|].
      by intros [[? _] | [(? & ? & _) | [? _]]].
  - (* infinity *)
    split.
    + split; [done|].
      by intros (_ & [(? & ? & _) | [(? & ? & ? & _) | ?]]).
    + intros message. split; [done|].
      by intros [[? _] | [(? & ? & _) | [? _]]].
  - (* NaN *)
    unfold Array_get. simpl.
    destruct messages as [|m messages]; [done|]. simpl. split.
    + split; [done|].
      by intros (_ & [(? & ? & _) | [(? & ? & ? & _) | ?]]).
    + intros message. split.
      * intros [= <-]. by right; right.
      * by intros [[? _] | [(? & ? & _) | [_ [= ->]]]].
  - (* no index *)
    destruct (Z.gtb_spec (Z.of_nat (length messages)) 1) as [Hmany|Hone];
      simpl.
    + split.
      * split; [done|].
        by intros (_ & [(? & ? & _) | [(? & ? & ? & _) | ?]]).
      * intros message. split; [done|].
        intros [[_ ->] | [(? & ? & _) | [? _]]];
          [simpl in Hmany; lia | done..].
    + destruct messages as [|m [|m' messages]]; [done| |simpl in Hone; lia].
      simpl. split.
      * split; [done|].
        by intros (_ & [(? & ? & _) | [(? & ? & ? & _) | ?]]).
      * intros message. split.
        -- intros [= <-]. by left.
        -- by intros [[_ [= ->]] | [(? & ? & _) | [? _]]].
Qed.

Lemma getL1ToL2Message_result_witness :
  getL1ToL2Messages (H := Sample.collaborators) Sample.twoMessages Sample.signer
  = ([Call_getNetwork], ok [Sample.messageFor 9; Sample.messageFor 5])
  ∧ outcome (Doubles.getL1ToL2Message (H := Sample.collaborators)
               Sample.twoMessages Sample.signer
               (Some (Doubles.Fraction 0 "0.5")))
    = ok None
  ∧ outcome (Doubles.getL1ToL2Message (H := Sample.collaborators)
               Sample.twoMessages Sample.signer (Some Doubles.NaN))
    = ok (Some (Sample.messageFor 9)).
Proof.
  split; [reflexivity|]. split.
  - apply (getL1ToL2Message_result (H := Sample.collaborators)
             Sample.twoMessages Sample.signer [Call_getNetwork]
             [Sample.messageFor 9; Sample.messageFor 5]
             (Some (Doubles.Fraction 0 "0.5")) eq_refl).
    split; [discriminate|]. right. left. exists 0, "0.5".
    split; [reflexivity|]. simpl. lia.
  - apply (getL1ToL2Message_result (H := Sample.collaborators)
             Sample.twoMessages Sample.signer [Call_getNetwork]
             [Sample.messageFor 9; Sample.messageFor 5]
             (Some Doubles.NaN) eq_refl).
    right. right. split; reflexivity.
Defined.

(** X11. From the logs to the message. For a receipt with exactly one
    message log, carrying the number [n], a handle that gives a chain id
    that is a safe integer, and an identifier that
    [calculateRetryableCreationId] gives for that chain id and [n],
    [getL1ToL2Message] without an index, and with the index 0, makes the
    one call [getNetwork] and returns the message built from the handle,
    that identifier and [n]. *)
Theorem getL1ToL2Message_of_single_log `{Collaborators} (this : t)
    (handle : SignerOrProvider) (provider : Provider) (network : Network)
    (log : Log) (n : Z) (id : string) :
  getProviderOrThrow handle = ok provider →
  getNetwork provider = ok network →
  isSafeInteger (chainId network) →
  List.filter isMessageDelivered (logs this) = [log] →
  decodes log n →
  calculateRetryableCreationId (chainId network) n = ok id →
  getL1ToL2Message this handle None
  = ([Call_getNetwork], ok (Some (fromRetryableCreationId handle id n)))
  ∧ getL1ToL2Message this handle (Some 0)
    = getL1ToL2Message this handle None.
Proof.
  intros Hprovider Hnetwork Hsafe%isSafeInteger_plain Hlogs Hn Hid.
  assert (getL1ToL2Messages this handle
          = ([Call_getNetwork], ok [fromRetryableCreationId handle id n]))
    as Hall.
  { assert (getMessageNumbers this = ok [n]) as Hnumbers.
    { unfold getMessageNumbers. rewrite Hlogs. simpl.
      unfold decodes in Hn. by rewrite Hn. }
    rewrite (getL1ToL2Messages_as_map _ _ _ _ Hprovider Hnetwork), Hnumbers.
    unfold ok. cbv iota. simpl.
    by rewrite (messageOfNumber_ok _ _ _ _ Hsafe Hid). }
  by rewrite !(getL1ToL2Message_steps _ _ _ _ _ Hall).
Qed.

Lemma getL1ToL2Message_of_single_log_witness :
  isSafeInteger 42161
  ∧ List.filter (isMessageDelivered (H := Sample.collaborators))
      (logs Sample.oneMessage) = [Sample.message9]
  ∧ decodes Sample.message9 9
  ∧ calculateRetryableCreationId (Collaborators := Sample.collaborators)
      42161 9 = ok "42161/9"
  ∧ getL1ToL2Message (H := Sample.collaborators) Sample.oneMessage
      Sample.signer None
    = ([Call_getNetwork], ok (Some (Sample.messageFor 9))).
Proof.
  assert (isSafeInteger 42161) as Hsafe by (unfold isSafeInteger; lia).
  split; [exact Hsafe|]. split; [reflexivity|]. split; [reflexivity|].
  split; [reflexivity|].
  apply (getL1ToL2Message_of_single_log (H := Sample.collaborators)
           Sample.oneMessage Sample.signer Sample.arbitrum
           {| name := "arbitrum"; chainId := 42161 |} Sample.message9 9
           "42161/9" eq_refl eq_refl Hsafe eq_refl eq_refl eq_refl).
Defined.

(** X12. For a receipt without a message log and a handle that gives the
    chain id, [getL1ToL2Message] fails with [NoMessageFound] for the hash of
    the receipt, with or without an index, in range or not, and only after
    the call [getNetwork] has been made. *)
Theorem getL1ToL2Message_without_message_log `{Collaborators} (this : t)
    (handle : SignerOrProvider) (provider : Provider) (network : Network)
    (messageIndex : option Z) :
  getProviderOrThrow handle = ok provider →
  getNetwork provider = ok network →
  List.filter isMessageDelivered (logs this) = [] →
  getL1ToL2Message this handle messageIndex
  = ([Call_getNetwork], throw (NoMessageFound (transactionHash this))).
Proof.
  intros Hprovider Hnetwork Hlogs.
  assert (getL1ToL2Messages this handle = ([Call_getNetwork], ok [])) as Hall.
  { rewrite (getL1ToL2Messages_empty_steps _ _ Hlogs), Hprovider. cbn.
    by rewrite Hnetwork. }
  by rewrite (getL1ToL2Message_steps _ _ _ _ _ Hall).
Qed.

Lemma getL1ToL2Message_without_message_log_witness :
  List.filter (isMessageDelivered (H := Sample.collaborators))
    (logs Sample.noMessage) = []
  ∧ getL1ToL2Message (H := Sample.collaborators) Sample.noMessage
      Sample.signer (Some 3)
    = ([Call_getNetwork], throw (NoMessageFound Sample.txHash)).
Proof.
  split; [reflexivity|].
  apply (getL1ToL2Message_without_message_log (H := Sample.collaborators)
           Sample.noMessage Sample.signer Sample.arbitrum
           {| name := "arbitrum"; chainId := 42161 |} (Some 3));
    reflexivity.
Defined.

(** X13. The three errors of [getL1ToL2Message] can be told apart by their
    text alone: whatever the hashes, the index and the counts, no two of
    them are equal. *)
Theorem getL1ToL2Message_errors_differ (h h' h'' : string)
    (index count count' : Z) :
  NoMessageFound h ≠ IndexOutOfRange h' index count
  ∧ NoMessageFound h ≠ AmbiguousMessageCount h'' count'
  ∧ IndexOutOfRange h' index count ≠ AmbiguousMessageCount h'' count'.
Proof.
  split_and!.
  - apply NoMessageFound_not_IndexOutOfRange.
  - apply NoMessageFound_not_AmbiguousMessageCount.
  - apply IndexOutOfRange_not_AmbiguousMessageCount.
Qed.

(** X14. For one transaction, the text of each error gives back what the
    method put into it: the error for an index out of range tells the index
    and the count, the error for several messages tells the count. *)
Theorem getL1ToL2Message_errors_tell (h : string)
    (index index' count count' : Z) :
  (IndexOutOfRange h index count = IndexOutOfRange h index' count' →
   index = index' ∧ count = count')
  ∧ (AmbiguousMessageCount h count = AmbiguousMessageCount h count' →
     count = count').
Proof.
  split; [apply IndexOutOfRange_payload | apply AmbiguousMessageCount_count].
Qed.

(** ** More on [looksLikeEthDeposit] *)

(** X15. On call data written by the connectivity layer from the bytes
    [bytes], the answer of [looksLikeEthDeposit] is [true] exactly when the
    first four bytes are 0f 4d 14 e9; with fewer than four bytes of call
    data, as in a plain transfer, it is [false]. *)
Theorem looksLikeEthDeposit_first_four_bytes `{Collaborators} (this : t)
    (handle : SignerOrProvider) (provider : Provider)
    (txRes : TransactionResponse) (bytes : list byte) :
  getProviderOrThrow handle = ok provider →
  getTransaction provider (transactionHash this) = ok (Some txRes) →
  tx_data txRes = hexlify bytes →
  ∃ answer : bool,
    looksLikeEthDeposit this handle
    = ([Call_getTransaction (transactionHash this)], ok answer)
    ∧ (answer = true ↔ take 4 bytes = depositEth_selector)
    ∧ ((length bytes < 4)%nat → answer = false).
Proof.
  intros Hprovider Htx Hdata.
  exists (String.prefix "0x0f4d14e9" (tx_data txRes)). split_and!.
  - unfold looksLikeEthDeposit, Provider_getTransaction.
    rewrite Hprovider. run_io. by rewrite Htx.
  - rewrite Hdata. apply startsWith_selector_bytes.
  - intros Hshort. apply not_true_is_false. rewrite Hdata.
    intros Hfour%startsWith_selector_bytes.
    apply (f_equal length) in Hfour. rewrite length_take in Hfour.
    unfold depositEth_selector in Hfour. cbn [length] in Hfour. lia.
Qed.

Lemma looksLikeEthDeposit_first_four_bytes_witness :
  tx_data {| hash := Sample.txHash; tx_data := "0x0f4d14e90000000000000001" |}
  = hexlify [x0f; x4d; x14; xe9; x00; x00; x00; x00; x00; x00; x00; x01]%byte
  ∧ ∃ answer : bool,
      looksLikeEthDeposit (H := Sample.collaborators) Sample.noMessage
        Sample.signer
      = ([Call_getTransaction Sample.txHash], ok answer)
      ∧ answer = true.
Proof.
  split; [reflexivity|].
  destruct (looksLikeEthDeposit_first_four_bytes (H := Sample.collaborators)
              Sample.noMessage Sample.signer Sample.arbitrum
              {| hash := Sample.txHash;
                 tx_data := "0x0f4d14e90000000000000001" |}
              [x0f; x4d; x14; xe9; x00; x00; x00; x00; x00; x00; x00; x01]%byte
              eq_refl eq_refl eq_refl)
    as (answer & Hanswer & Hiff & _).
  exists answer. split; [exact Hanswer|]. apply Hiff. reflexivity.
Defined.

(** X16. [looksLikeEthDeposit] makes no call when the handle has no
    provider and otherwise the single call [getTransaction] for the hash of
    the receipt; it never asks for the network. It fails only with the
    error of the handle, with the error of the rejected call, or, when the
    call is answered with [null] because the provider knows no transaction
    of that hash, with the [TypeError] of reading [data] of [null]. *)
Theorem looksLikeEthDeposit_calls `{Collaborators} (this : t)
    (handle : SignerOrProvider) :
  trace (looksLikeEthDeposit this handle)
  = match getProviderOrThrow handle with
    | inl _ => []
    | inr _ => [Call_getTransaction (transactionHash this)]
    end
  ∧ ∀ e, outcome (looksLikeEthDeposit this handle) = throw e →
         getProviderOrThrow handle = throw e
         ∨ (∃ provider,
              getProviderOrThrow handle = ok provider
              ∧ getTransaction provider (transactionHash this) = throw e)
         ∨ (∃ provider,
              getProviderOrThrow handle = ok provider
              ∧ getTransaction provider (transactionHash this) = ok None
              ∧ e = TypeError).
Proof.
  unfold looksLikeEthDeposit, Provider_getTransaction.
  destruct (getProviderOrThrow handle) as [e'|provider]; run_io.
  - split; [done|]. intros e [= ->]. by left.
  - destruct (getTransaction provider (transactionHash this))
      as [e'|[txRes|]] eqn:Htx; simpl.
    + split; [done|]. intros e [= ->]. right. left. by exists provider.
    + split; [done|]. intros e Houtcome. discriminate Houtcome.
    + split; [done|]. intros e [= <-]. right. right. by exists provider.
Qed.

Lemma looksLikeEthDeposit_calls_witness :
  outcome (looksLikeEthDeposit (H := Sample.collaborators) Sample.oneMessage
             (Sample.AProvider Sample.farChain))
  = throw TypeError
  ∧ getTransaction Sample.farChain (transactionHash Sample.oneMessage)
    = ok None.
Proof.
  split; [reflexivity|].
  destruct (looksLikeEthDeposit_calls (H := Sample.collaborators)
              Sample.oneMessage (Sample.AProvider Sample.farChain))
    as [_ Hfails].
  destruct (Hfails TypeError eq_refl)
    as [Hprovider | [(provider & _ & Hcall) | (provider & _ & _ & _)]].
  - discriminate Hprovider.
  - reflexivity.
  - reflexivity.
Defined.

(** ** More on [monkeyPatchWait] *)

(** X17. Patching a contract transaction a second time changes nothing
    that can be seen: the [wait] of the object patched twice makes the same
    calls and settles in the same way as the [wait] of the object patched
    once, for every argument. *)
Theorem monkeyPatchWait_idempotent (heap : gmap ref ContractTransaction)
    (contractTransaction : ref) (object : ContractTransaction) :
  heap !! contractTransaction = Some object →
  ∃ once twice,
    (monkeyPatchWait contractTransaction heap).1 !! contractTransaction
    = Some once
    ∧ (monkeyPatchWait contractTransaction
         (monkeyPatchWait contractTransaction heap).1).1
        !! contractTransaction
      = Some twice
    ∧ ct_hash twice = ct_hash once
    ∧ ∀ confirmations, wait twice confirmations = wait once confirmations.
Proof.
  intros Hobject. unfold monkeyPatchWait at 1 3. rewrite Hobject. cbn [fst].
  eexists. eexists. split; [apply lookup_insert_eq|].
  unfold monkeyPatchWait. rewrite lookup_insert_eq. cbn [fst].
  split; [apply lookup_insert_eq|]. split; [done|].
  intros confirmations. cbn [wait]. apply monkeyPatchWait_twice.
Qed.

Lemma monkeyPatchWait_idempotent_witness :
  ({[ 1%positive := Sample.pending ]} : gmap ref ContractTransaction)
    !! 1%positive = Some Sample.pending
  ∧ ∃ once twice,
      (monkeyPatchWait 1%positive {[ 1%positive := Sample.pending ]}).1
        !! 1%positive = Some once
      ∧ (monkeyPatchWait 1%positive
           (monkeyPatchWait 1%positive
              {[ 1%positive := Sample.pending ]}).1).1 !! 1%positive
        = Some twice
      ∧ wait twice None = wait once None.
Proof.
  assert (({[ 1%positive := Sample.pending ]} : gmap ref ContractTransaction)
            !! 1%positive = Some Sample.pending) as Hpending
    by reflexivity.
  split; [exact Hpending|].
  destruct (monkeyPatchWait_idempotent {[ 1%positive := Sample.pending ]}
              1%positive Sample.pending Hpending)
    as (once & twice & Honce & Htwice & _ & Hwait).
  exists once, twice. split_and!; [exact Honce | exact Htwice | exact (Hwait None)].
Defined.

(** X18. Patching two different contract transactions can be done in
    either order: the store is the same at the end. *)
Theorem monkeyPatchWait_commutes (heap : gmap ref ContractTransaction)
    (r r' : ref) :
  r ≠ r' →
  (monkeyPatchWait r' (monkeyPatchWait r heap).1).1
  = (monkeyPatchWait r (monkeyPatchWait r' heap).1).1.
Proof.
  intros Hne. unfold monkeyPatchWait.
  destruct (heap !! r) as [object|] eqn:Hr;
    destruct (heap !! r') as [object'|] eqn:Hr'; cbn [fst];
    rewrite ?lookup_insert_ne, ?Hr, ?Hr' by done; cbn [fst]; [|done..].
  by apply insert_insert_ne.
Qed.

Lemma monkeyPatchWait_commutes_witness :
  1%positive ≠ 2%positive
  ∧ (monkeyPatchWait 2%positive
       (monkeyPatchWait 1%positive
          {[ 1%positive := Sample.pending; 2%positive := Sample.pending ]}).1).1
    = (monkeyPatchWait 1%positive
         (monkeyPatchWait 2%positive
            {[ 1%positive := Sample.pending; 2%positive := Sample.pending ]}).1).1.
Proof.
  assert (1%positive ≠ 2%positive) as Hne by discriminate.
  split; [exact Hne|].
  exact (monkeyPatchWait_commutes _ 1%positive 2%positive Hne).
Defined.

(** ** More on the constructor, [getDepositEvents] and composition *)

(** X20. The deposits of a receipt whose logs are those of a first receipt
    followed by those of a second are the deposits of the first followed by
    the deposits of the second; a log of the first that does not decode
    makes the call fail before any log of the second is decoded. *)
Theorem getDepositEvents_concat `{Collaborators} (this first second : t) :
  logs this = logs first ++ logs second →
  getDepositEvents this =
  match getDepositEvents first with
  | inl e => inl e
  | inr deposits =>
      match getDepositEvents second with
      | inl e => inl e
      | inr deposits' => inr (deposits ++ deposits')
      end
  end.
Proof.
  unfold getDepositEvents. intros ->.
  by rewrite List.filter_app, Array_map_app.
Qed.

Lemma getDepositEvents_concat_witness :
  logs Sample.badSecond
  = logs (Sample.receipt [Sample.other])
    ++ logs (Sample.receipt [Sample.badDepositAt1])
  ∧ getDepositEvents (H := Sample.collaborators) Sample.badSecond
    = throw (AbiError "data out-of-bounds").
Proof.
  split; [reflexivity|].
  apply (getDepositEvents_concat (H := Sample.collaborators)
           Sample.badSecond (Sample.receipt [Sample.other])
           (Sample.receipt [Sample.badDepositAt1])).
  reflexivity.
Defined.

(** X21. With one handle, the messages of a receipt whose logs are those of
    a first receipt followed by those of a second are the messages of the
    first followed by the messages of the second, when both have messages
    to give; the chain id is fetched once. *)
Theorem getL1ToL2Messages_concat `{Collaborators} (this first second : t)
    (handle : SignerOrProvider) (calls calls' : list Call)
    (messages messages' : list L1ToL2MessageReaderOrWriter) :
  logs this = logs first ++ logs second →
  getL1ToL2Messages first handle = (calls, ok messages) →
  getL1ToL2Messages second handle = (calls', ok messages') →
  getL1ToL2Messages this handle = ([Call_getNetwork], ok (messages ++ messages')).
Proof.
  intros Hlogs Hfirst Hsecond.
  destruct (getProviderOrThrow handle) as [e|provider] eqn:Hprovider.
  { rewrite (getL1ToL2Messages_no_provider _ _ _ Hprovider) in Hfirst.
    discriminate Hfirst. }
  destruct (getNetwork provider) as [e|network] eqn:Hnetwork.
  { rewrite (getL1ToL2Messages_no_network _ _ _ _ Hprovider Hnetwork) in Hfirst.
    discriminate Hfirst. }
  rewrite (getL1ToL2Messages_as_map _ _ _ _ Hprovider Hnetwork) in Hfirst.
  rewrite (getL1ToL2Messages_as_map _ _ _ _ Hprovider Hnetwork) in Hsecond.
  rewrite (getL1ToL2Messages_as_map _ _ _ _ Hprovider Hnetwork).
  assert (getMessageNumbers this =
          match getMessageNumbers first with
          | inl e => inl e
          | inr numbers =>
              match getMessageNumbers second with
              | inl e => inl e
              | inr numbers' => inr (numbers ++ numbers')
              end
          end) as ->.
  { unfold getMessageNumbers. rewrite Hlogs.
    by rewrite List.filter_app, Array_map_app. }
  destruct (getMessageNumbers first) as [e|numbers]; [discriminate Hfirst|].
  destruct (getMessageNumbers second) as [e|numbers']; [discriminate Hsecond|].
  injection Hfirst as _ Hfirst. injection Hsecond as _ Hsecond.
  by rewrite Array_map_app, Hfirst, Hsecond.
Qed.

Lemma getL1ToL2Messages_concat_witness :
  logs Sample.twoMessages
  = logs (Sample.receipt [Sample.other; Sample.message9])
    ++ logs (Sample.receipt [Sample.other; Sample.message5])
  ∧ getL1ToL2Messages (H := Sample.collaborators) Sample.twoMessages
      Sample.signer
    = ([Call_getNetwork], ok ([Sample.messageFor 9] ++ [Sample.messageFor 5])).
Proof.
  split; [reflexivity|].
  apply (getL1ToL2Messages_concat (H := Sample.collaborators)
           Sample.twoMessages
           (Sample.receipt [Sample.other; Sample.message9])
           (Sample.receipt [Sample.other; Sample.message5])
           Sample.signer [Call_getNetwork] [Call_getNetwork]);
    reflexivity.
Defined.
